(** * The vulnerability store of grype/db/v5/store (store.go)

    A shallow embedding of the record store: the four tables behind the
    database handle, the read and write operations of [store.go], the
    metadata merge performed by [AddVulnerabilityMetadata] and the driver
    of the snapshot diff, [DiffStore].

    The database handle is modelled as the content of its tables together
    with a script of backend faults: a database call takes the next entry
    of the script; [None] (or an exhausted script) lets the call go
    through, [Some msg] makes it report the error [msg] and leave the
    tables alone. This holds for the calls whose outcome the source
    discards as well, such as the [Find] and [Delete] of [SetID]. *)

From Stdlib Require Import ZArith.
From stdpp Require Import base option list sorting gmap strings.

Local Open Scope string_scope.
Local Open Scope list_scope.
Local Open Scope Z_scope.

(** ** Errors

    The source builds its errors with [fmt.Errorf]; one constructor stands
    for each format string, carrying the formatted arguments. *)

Inductive error :=
  | ErrBackend (msg : string)
      (* an error reported by the database handle ([result.Error]) *)
  | ErrInflate (msg : string)
      (* an error returned by a model's [Inflate] *)
  | ErrMultipleIDs
      (* "found multiple DB IDs" *)
  | ErrAddID (rows : Z)
      (* "unable to add id (%d rows affected)" *)
  | ErrMultipleMetadata (id namespace : string)
      (* "found multiple metadatas for single ID=%q Namespace=%q" *)
  | ErrVerifyExisting (cause : error)
      (* "failed to verify existing entry: %w" *)
  | ErrMismatchedSeverity (existing incoming : string)
      (* "existing metadata has mismatched severity (%q!=%q)" *)
  | ErrMismatchedDescription (existing incoming : string)
      (* "existing metadata has mismatched description (%q!=%q)" *)
  | ErrMergeMetadata (rows : Z)
      (* "unable to merge vulnerability metadata (%d rows affected)" *)
  | ErrAddMetadata (rows : Z)
      (* "unable to add vulnerability metadata (%d rows affected)" *).

(** The names the design document gives to these errors. *)
Definition WriteMismatch (e : error) : Prop :=
  match e with
  | ErrAddID _ | ErrMergeMetadata _ | ErrAddMetadata _ => True
  | _ => False
  end.

Definition MetadataConflict (e : error) : Prop :=
  match e with
  | ErrMismatchedSeverity _ _ | ErrMismatchedDescription _ _ => True
  | _ => False
  end.

(** A Go [(value, error)] pair of which exactly one side is set. *)
Inductive result (A : Type) :=
  | Ok (a : A)
  | Err (e : error).
Arguments Ok {A} a.
Arguments Err {A} e.

(** ** Values of package v5 *)

(** Modelled from the spec: the [v5.ID] type is declared outside
    [store.go]; an identity is a schema version and a build timestamp
    (an instant, here in nanoseconds). *)
Record ID := {
  BuildTimestamp : Z;
  SchemaVersion : Z
}.

(** Modelled from the spec: the [v5.Cvss] type is declared outside
    [store.go]; a scoring entry is a structured value with vector, version
    and score fields. The score is held as a scaled integer, since the
    merge compares scores and does nothing else with them. *)
Record Cvss := {
  Version : string;
  Vector : string;
  BaseScore : Z
}.

(** Modelled from the spec: the [v5.VulnerabilityMetadata] type is declared
    outside [store.go]; the fields are those the merge reads and writes. *)
Record VulnerabilityMetadata := {
  meta_ID : string;
  meta_Namespace : string;
  meta_Severity : string;
  meta_URLs : list string;
  meta_Description : string;
  meta_Cvss : list Cvss
}.

Definition set_Cvss (cvss : list Cvss) (m : VulnerabilityMetadata) :=
  {| meta_ID := meta_ID m; meta_Namespace := meta_Namespace m;
     meta_Severity := meta_Severity m; meta_URLs := meta_URLs m;
     meta_Description := meta_Description m; meta_Cvss := cvss |}.

Definition set_URLs (urls : list string) (m : VulnerabilityMetadata) :=
  {| meta_ID := meta_ID m; meta_Namespace := meta_Namespace m;
     meta_Severity := meta_Severity m; meta_URLs := urls;
     meta_Description := meta_Description m; meta_Cvss := meta_Cvss m |}.

(** Modelled from the spec: the [v5.Vulnerability] type is declared outside
    [store.go]. *)
Record Vulnerability := {
  vuln_ID : string;
  vuln_Namespace : string;
  vuln_PackageName : string;
  vuln_VersionConstraint : string
}.

(** Modelled from the spec: the [v5.VulnerabilityMatchExclusion] type is
    declared outside [store.go]; a rule keyed by the vulnerability
    identifier with its justification. *)
Record VulnerabilityMatchExclusion := {
  excl_ID : string;
  excl_Justification : string
}.

Global Instance ID_eq_dec : EqDecision ID.
Proof. solve_decision. Defined.
Global Instance Cvss_eq_dec : EqDecision Cvss.
Proof. solve_decision. Defined.
Global Instance VulnerabilityMetadata_eq_dec : EqDecision VulnerabilityMetadata.
Proof. solve_decision. Defined.
Global Instance Vulnerability_eq_dec : EqDecision Vulnerability.
Proof. solve_decision. Defined.
Global Instance VulnerabilityMatchExclusion_eq_dec :
  EqDecision VulnerabilityMatchExclusion.
Proof. solve_decision. Defined.

(** ** Package model

    The row types and their conversions ([NewIDModel], [Inflate], ...) live
    in package [model], outside [store.go]. The store is written against
    this interface: the row types, the columns the queries of [store.go]
    name, the conversions, and the facts that a row built from a value
    inflates back to it and that a metadata row and the value it inflates
    to carry the same key. *)
Class Models := {
  IDModel : Type;
  NewIDModel : ID → IDModel;
  IDModel_Inflate : IDModel → result ID;
  IDModel_Inflate_New id : IDModel_Inflate (NewIDModel id) = Ok id;

  VulnerabilityModel : Type;
  VulnerabilityModel_Namespace : VulnerabilityModel → string;
  VulnerabilityModel_Inflate : VulnerabilityModel → result Vulnerability;

  VulnerabilityMetadataModel : Type;
  VulnerabilityMetadataModel_ID : VulnerabilityMetadataModel → string;
  VulnerabilityMetadataModel_Namespace : VulnerabilityMetadataModel → string;
  NewVulnerabilityMetadataModel :
    VulnerabilityMetadata → VulnerabilityMetadataModel;
  VulnerabilityMetadataModel_Inflate :
    VulnerabilityMetadataModel → result VulnerabilityMetadata;
  VulnerabilityMetadataModel_Inflate_New m :
    VulnerabilityMetadataModel_Inflate (NewVulnerabilityMetadataModel m) = Ok m;
  VulnerabilityMetadataModel_ID_New m :
    VulnerabilityMetadataModel_ID (NewVulnerabilityMetadataModel m) = meta_ID m;
  VulnerabilityMetadataModel_Namespace_New m :
    VulnerabilityMetadataModel_Namespace (NewVulnerabilityMetadataModel m)
    = meta_Namespace m;
  VulnerabilityMetadataModel_Inflate_ID row m :
    VulnerabilityMetadataModel_Inflate row = Ok m →
    meta_ID m = VulnerabilityMetadataModel_ID row;
  VulnerabilityMetadataModel_Inflate_Namespace row m :
    VulnerabilityMetadataModel_Inflate row = Ok m →
    meta_Namespace m = VulnerabilityMetadataModel_Namespace row;

  VulnerabilityMatchExclusionModel : Type;
  VulnerabilityMatchExclusionModel_ID :
    VulnerabilityMatchExclusionModel → string;
  (* [Inflate] of an exclusion row returns a pointer, which may be nil *)
  VulnerabilityMatchExclusionModel_Inflate :
    VulnerabilityMatchExclusionModel →
    result (option VulnerabilityMatchExclusion)
}.

(** ** The store *)

Section Store.
Context `{Models}.

(** [type store struct { db *gorm.DB }]: what the handle gives access to. *)
Record store := {
  ids : list IDModel;
  vulnerabilities : list VulnerabilityModel;
  metadata : list VulnerabilityMetadataModel;
  exclusions : list VulnerabilityMatchExclusionModel;
  (* the faults the backend is going to report, one entry per call *)
  faults : list (option string);
  (* the statements handed to [Exec], latest last, with their outcome *)
  executed : list (string * option error);
  (* whether the underlying connection has been released *)
  released : bool
}.

Definition set_ids (x : list IDModel) (s : store) : store :=
  {| ids := x; vulnerabilities := vulnerabilities s; metadata := metadata s;
     exclusions := exclusions s; faults := faults s; executed := executed s;
     released := released s |}.

Definition set_metadata (x : list VulnerabilityMetadataModel) (s : store) : store :=
  {| ids := ids s; vulnerabilities := vulnerabilities s; metadata := x;
     exclusions := exclusions s; faults := faults s; executed := executed s;
     released := released s |}.

Definition set_exclusions (x : list VulnerabilityMatchExclusionModel)
    (s : store) : store :=
  {| ids := ids s; vulnerabilities := vulnerabilities s; metadata := metadata s;
     exclusions := x; faults := faults s; executed := executed s;
     released := released s |}.

Definition set_faults (x : list (option string)) (s : store) : store :=
  {| ids := ids s; vulnerabilities := vulnerabilities s; metadata := metadata s;
     exclusions := exclusions s; faults := x; executed := executed s;
     released := released s |}.

Definition set_executed (x : list (string * option error)) (s : store) : store :=
  {| ids := ids s; vulnerabilities := vulnerabilities s; metadata := metadata s;
     exclusions := exclusions s; faults := faults s; executed := x;
     released := released s |}.

Definition set_released (x : bool) (s : store) : store :=
  {| ids := ids s; vulnerabilities := vulnerabilities s; metadata := metadata s;
     exclusions := exclusions s; faults := faults s; executed := executed s;
     released := x |}.

(** *** The database handle *)

(** What a gorm call leaves in [result]. *)
Record Result := {
  RowsAffected : Z;
  Error : option error
}.

(** The error a script entry makes the backend report. *)
Definition fault_error (f : option string) : option error :=
  ErrBackend <$> f.

(** Every inspected call draws the next entry of the fault script. *)
Definition next_fault (s : store) : option error * store :=
  match faults s with
  | [] => (None, s)
  | f :: fs => (fault_error f, set_faults fs s)
  end.

(** [db.Find(&models)] over the rows a query selects. *)
Definition db_Find {A : Type} (rows : list A) (s : store)
  : list A * option error * store :=
  let '(fault, s) := next_fault s in
  match fault with
  | Some e => ([], Some e, s)
  | None => (rows, None, s)
  end.

(** A write: [change] gives the rows affected and the tables afterwards. *)
Definition db_write (change : store → Z * store) (s : store) : Result * store :=
  let '(fault, s) := next_fault s in
  match fault with
  | Some e => ({| RowsAffected := 0; Error := Some e |}, s)
  | None =>
      let '(n, s) := change s in
      ({| RowsAffected := n; Error := None |}, s)
  end.

(** [db.Exec(stmt)]: the statement and its outcome are recorded. *)
Definition db_Exec (stmt : string) (s : store) : option error * store :=
  let '(fault, s) := next_fault s in
  (fault, set_executed (executed s ++ [(stmt, fault)]) s).

(** *** Identity *)

(** [GetID]: the schema version and build time of the database. *)
Definition GetID (s : store) : result (option ID) * store :=
  let '(models, err, s) := db_Find (ids s) s in
  match err with
  | Some e => (Err e, s)
  | None =>
      match models with
      | _ :: _ :: _ => (Err ErrMultipleIDs, s)
      | [m] =>
          match IDModel_Inflate m with
          | Err e => (Err e, s)
          | Ok id => (Ok (Some id), s)
          end
      | [] => (Ok None, s)
      end
  end.

(** [Delete(&ids)] on the rows that [Find(&ids)] has read: [Find] reads
    the whole table, so deleting what it read empties the table; when it
    read nothing there is nothing to delete. *)
Definition delete_ids (found : list IDModel) (s : store) : Z * store :=
  match found with
  | [] => (0, s)
  | _ :: _ => (Z.of_nat (length found), set_ids [] s)
  end.

(** [SetID]. The outcome of [s.db.Find(&ids).Delete(&ids)] is discarded by
    the source: when the read or the delete is refused, the old rows stay
    and the call goes on to the insert. *)
Definition SetID (id : ID) (s : store) : option error * store :=
  (* replace the existing ID with the given one *)
  let '(found, _, s) := db_Find (ids s) s in
  let '(_, s) := db_write (delete_ids found) s in
  let m := NewIDModel id in
  let '(result, s) := db_write (λ s, (1, set_ids (ids s ++ [m]) s)) s in
  if decide (RowsAffected result ≠ 1)
  then (Some (ErrAddID (RowsAffected result)), s)
  else (Error result, s).

(** A sequence of [SetID] calls, with what each call returned. *)
Fixpoint SetID_seq (l : list ID) (s : store) : list (option error) * store :=
  match l with
  | [] => ([], s)
  | id :: l =>
      let '(err, s) := SetID id s in
      let '(errs, s) := SetID_seq l s in
      (err :: errs, s)
  end.

(** *** Namespaces *)

(** [GetVulnerabilityNamespaces]:
    [s.db.Model(&model.VulnerabilityMetadataModel{}).Distinct().Pluck("namespace", &names)]. *)
Definition GetVulnerabilityNamespaces (s : store)
  : list string * option error * store :=
  let '(names, err, s) :=
    db_Find (remove_dups (VulnerabilityMetadataModel_Namespace <$> metadata s)) s in
  (names, err, s).

(** *** Metadata *)

(** The rows [Where(&model.VulnerabilityMetadataModel{ID: id, Namespace: namespace})]
    selects. This is a struct condition: a field of the struct that is left
    at its zero value, here the empty string, puts no condition on its
    column, so an empty [id] or [namespace] selects on the other column
    only, and all rows when both are empty. *)
Definition metadata_key_is (id namespace : string)
    (m : VulnerabilityMetadataModel) : Prop :=
  (id = "" ∨ VulnerabilityMetadataModel_ID m = id) ∧
  (namespace = "" ∨ VulnerabilityMetadataModel_Namespace m = namespace).

Global Instance metadata_key_is_dec id namespace m :
  Decision (metadata_key_is id namespace m).
Proof. unfold metadata_key_is. apply _. Defined.

(** The rows whose primary key (id, namespace) is the given one. *)
Definition metadata_primary_key_is (id namespace : string)
    (m : VulnerabilityMetadataModel) : Prop :=
  VulnerabilityMetadataModel_ID m = id ∧
  VulnerabilityMetadataModel_Namespace m = namespace.

Global Instance metadata_primary_key_is_dec id namespace m :
  Decision (metadata_primary_key_is id namespace m).
Proof. unfold metadata_primary_key_is. apply _. Defined.

(** [GetVulnerabilityMetadata]. *)
Definition GetVulnerabilityMetadata (id namespace : string) (s : store)
  : result (option VulnerabilityMetadata) * store :=
  let '(models, err, s) :=
    db_Find (filter (metadata_key_is id namespace) (metadata s)) s in
  match err with
  | Some e => (Err e, s)
  | None =>
      match models with
      | _ :: _ :: _ => (Err (ErrMultipleMetadata id namespace), s)
      | [m] =>
          match VulnerabilityMetadataModel_Inflate m with
          | Err e => (Err e, s)
          | Ok metadata => (Ok (Some metadata), s)
          end
      | [] => (Ok None, s)
      end
  end.

(** [deep.Equal]: the list of differences between two values, compared
    field by field; empty when there is none. *)
Definition deep_Equal (a b : Cvss) : list string :=
  (if decide (Version a = Version b) then [] else ["Version"]) ++
  (if decide (Vector a = Vector b) then [] else ["Vector"]) ++
  (if decide (BaseScore a = BaseScore b) then [] else ["BaseScore"]).

(** The inner loop of the merge: is [incomingCvss] already stored? *)
Definition cvss_stored (incomingCvss : Cvss) (existing : list Cvss) : bool :=
  existsb (λ existingCvss,
    bool_decide (length (deep_Equal incomingCvss existingCvss) = 0%nat)) existing.

(** The loop labelled [incoming]: every incoming entry is looked up in
    [existing.Cvss] as it stands at that point, and appended when absent. *)
Definition merge_Cvss (existing incoming : list Cvss) : list Cvss :=
  foldl (λ existing incomingCvss,
           if cvss_stored incomingCvss existing then existing
           else existing ++ [incomingCvss])
        existing incoming.

(** [stringutil.StringSet], a Go map used as a set. *)
Definition NewStringSetFromSlice (start : list string) : gset string :=
  list_to_set start.
Definition StringSet_Add (links : gset string) (l : string) : gset string :=
  links ∪ {[ l ]}.
Definition StringSet_ToSlice (links : gset string) : list string :=
  elements links.

(** [sort.Strings]: ascending, bytewise. *)
Definition sort_Strings (l : list string) : list string :=
  merge_sort String.le l.

Definition merge_URLs (existing incoming : list string) : list string :=
  let links := NewStringSetFromSlice existing in
  let links := foldl StringSet_Add links incoming in
  sort_Strings (StringSet_ToSlice links).

(** [db.Save(&newModel)]: update the rows under the primary key
    (id, namespace), insert when there is none. *)
Definition save_metadata (newModel : VulnerabilityMetadataModel) (s : store)
  : Z * store :=
  let hit :=
    metadata_primary_key_is (VulnerabilityMetadataModel_ID newModel)
                            (VulnerabilityMetadataModel_Namespace newModel) in
  match filter hit (metadata s) with
  | [] => (1, set_metadata (metadata s ++ [newModel]) s)
  | hits =>
      (Z.of_nat (length hits),
       set_metadata
         ((λ m, if decide (hit m) then newModel else m) <$> metadata s) s)
  end.

(** [db.Create(&newModel)]. *)
Definition create_metadata (newModel : VulnerabilityMetadataModel) (s : store)
  : Z * store :=
  (1, set_metadata (metadata s ++ [newModel]) s).

(** [AddVulnerabilityMetadata]. *)
Fixpoint AddVulnerabilityMetadata (metadata : list VulnerabilityMetadata)
    (s : store) : option error * store :=
  match metadata with
  | [] => (None, s)
  | m :: metadata =>
      let '(existing, s) :=
        GetVulnerabilityMetadata (meta_ID m) (meta_Namespace m) s in
      match existing with
      | Err e => (Some (ErrVerifyExisting e), s)
      | Ok (Some existing) =>
          (* merge with the existing entry *)
          if decide (meta_Severity existing ≠ meta_Severity m) then
            (Some (ErrMismatchedSeverity (meta_Severity existing)
                                         (meta_Severity m)), s)
          else if decide (meta_Description existing ≠ meta_Description m) then
            (Some (ErrMismatchedDescription (meta_Description existing)
                                            (meta_Description m)), s)
          else
            let existing :=
              set_Cvss (merge_Cvss (meta_Cvss existing) (meta_Cvss m)) existing in
            let existing :=
              set_URLs (merge_URLs (meta_URLs existing) (meta_URLs m)) existing in
            let newModel := NewVulnerabilityMetadataModel existing in
            let '(result, s) := db_write (save_metadata newModel) s in
            if decide (RowsAffected result ≠ 1) then
              (Some (ErrMergeMetadata (RowsAffected result)), s)
            else
              match Error result with
              | Some e => (Some e, s)
              | None => AddVulnerabilityMetadata metadata s
              end
      | Ok None =>
          (* this is a new entry *)
          let newModel := NewVulnerabilityMetadataModel m in
          let '(result, s) := db_write (create_metadata newModel) s in
          match Error result with
          | Some e => (Some e, s)
          | None =>
              if decide (RowsAffected result ≠ 1) then
                (Some (ErrAddMetadata (RowsAffected result)), s)
              else AddVulnerabilityMetadata metadata s
          end
      end
  end.

(** *** Match exclusions *)

(** The loop of [GetVulnerabilityMatchExclusion] over the rows found. *)
Fixpoint inflate_exclusions (models : list VulnerabilityMatchExclusionModel)
    (exclusions : list VulnerabilityMatchExclusion)
  : result (list VulnerabilityMatchExclusion) :=
  match models with
  | [] => Ok exclusions
  | m :: models =>
      match VulnerabilityMatchExclusionModel_Inflate m with
      | Err e => Err e
      | Ok (Some exclusion) => inflate_exclusions models (exclusions ++ [exclusion])
      | Ok None => inflate_exclusions models exclusions
      end
  end.

(** [GetVulnerabilityMatchExclusion]; a nil slice is the empty list. *)
Definition GetVulnerabilityMatchExclusion (id : string) (s : store)
  : list VulnerabilityMatchExclusion * option error * store :=
  let '(models, err, s) :=
    db_Find (filter (λ m, VulnerabilityMatchExclusionModel_ID m = id)
                    (exclusions s)) s in
  match inflate_exclusions models [] with
  | Err e => ([], Some e, s)
  | Ok exclusions => (exclusions, err, s)
  end.

(** *** Close *)

Inductive LogLine :=
  | LogDebug (msg : string)
  | LogDebugStatement (statement msg : string)
  | LogWarnStatement (statement : string) (err : error) (msg : string).

Definition memoryEfficientStatements : list string :=
  [ "PRAGMA cache_size = -32768";
    "PRAGMA temp_store = FILE";
    "PRAGMA mmap_size = 67108864";
    "PRAGMA journal_mode = TRUNCATE" ].

(** The loop over [memoryEfficientStatements]. *)
Fixpoint apply_statements (stmts : list string) (s : store)
  : list LogLine * store :=
  match stmts with
  | [] => ([], s)
  | stmt :: stmts =>
      let '(err, s) := db_Exec stmt s in
      let line :=
        match err with
        | Some err => LogWarnStatement stmt err "failed to apply memory optimization"
        | None => LogDebugStatement stmt "applied memory optimization"
        end in
      let '(lines, s) := apply_statements stmts s in
      (line :: lines, s)
  end.

(** [Close]: what is returned, what was logged, and the handle afterwards.
    [s.db.DB()] and [sqlDB.Close()] each draw from the fault script; their
    errors are dropped by the source. *)
Definition Close (s : store) : option error * list LogLine * store :=
  let log := [LogDebug "optimizing database settings for memory-efficient VACUUM"] in
  let '(lines, s) := apply_statements memoryEfficientStatements s in
  let log := log ++ lines in
  let log := log ++ [LogDebug "starting database VACUUM operation"] in
  let '(_, s) := db_Exec "VACUUM;" s in
  let log := log ++ [LogDebug "database VACUUM operation completed"] in
  let '(no_handle, s) := next_fault s in
  let s :=
    match no_handle with
    | Some _ => s
    | None =>
        let '(close_failed, s) := next_fault s in
        match close_failed with
        | Some _ => s
        | None => set_released true s
        end
    end in
  (None, log, s).

(** *** Full-table reads *)

(** The loops filling [vulns] and [metadata]: stop at the first row that
    does not inflate. *)
Fixpoint inflate_all {M A : Type} (inflate : M → result A) (models : list M)
  : result (list A) :=
  match models with
  | [] => Ok []
  | m :: models =>
      match inflate m with
      | Err e => Err e
      | Ok a =>
          match inflate_all inflate models with
          | Err e => Err e
          | Ok l => Ok (a :: l)
          end
      end
  end.

Definition GetAllVulnerabilities (s : store)
  : result (list Vulnerability) * store :=
  let '(models, err, s) := db_Find (vulnerabilities s) s in
  match err with
  | Some e => (Err e, s)
  | None => (inflate_all VulnerabilityModel_Inflate models, s)
  end.

Definition GetAllVulnerabilityMetadata (s : store)
  : result (list VulnerabilityMetadata) * store :=
  let '(models, err, s) := db_Find (metadata s) s in
  match err with
  | Some e => (Err e, s)
  | None => (inflate_all VulnerabilityMetadataModel_Inflate models, s)
  end.

End Store.

(** ** The snapshot diff *)

(** Modelled from the spec: the [v5.Diff] type is declared outside
    [store.go]; a diff entry has an (ID, Namespace) key, a kind, the
    reasons for the change and the packages known under the key. *)
Inductive DiffKind := Added | Removed | Changed.

Record Diff := {
  diff_ID : string;
  diff_Namespace : string;
  diff_Kind : DiffKind;
  diff_Reasons : list string;
  diff_Packages : list string
}.

Global Instance DiffKind_eq_dec : EqDecision DiffKind.
Proof. solve_decision. Defined.
Global Instance Diff_eq_dec : EqDecision Diff.
Proof. solve_decision. Defined.

(** A manual progress counter ([progress.Manual]). *)
Record Manual := {
  count : Z;
  size : Z;
  completed : bool
}.

Definition Increment (p : Manual) : Manual :=
  {| count := count p + 1; size := size p; completed := completed p |}.

Definition SetCompleted (p : Manual) : Manual :=
  {| count := count p; size := size p; completed := true |}.

(** Modelled from the spec: [trackDiff] is defined in [diff.go]; it creates
    the row counter for the given number of stages, the diff-item counter
    (of unknown size) and the stage label, none of them complete. *)
Definition trackDiff (total : Z) : Manual * Manual * string :=
  ({| count := 0; size := total; completed := false |},
   {| count := 0; size := -1; completed := false |},
   "").

(** [v5.StoreReader], as far as [DiffStore] uses it. *)
Class StoreReader (T : Type) := {
  reader_GetAllVulnerabilities : T → result (list Vulnerability) * T;
  reader_GetAllVulnerabilityMetadata :
    T → result (list VulnerabilityMetadata) * T
}.

Global Instance store_StoreReader `{Models} : StoreReader store := {|
  reader_GetAllVulnerabilities := GetAllVulnerabilities;
  reader_GetAllVulnerabilityMetadata := GetAllVulnerabilityMetadata
|}.

(** What a call of [DiffStore] leaves behind. *)
Record DiffRun `{Models} (T : Type) := {
  run_diffs : option (list Diff);
  run_err : option error;
  run_rowsProgress : Manual;
  run_diffItems : Manual;
  run_stage : string;
  run_base : store;
  run_target : T
}.
Arguments run_diffs {_ _} _.
Arguments run_err {_ _} _.
Arguments run_rowsProgress {_ _} _.
Arguments run_diffItems {_ _} _.
Arguments run_stage {_ _} _.
Arguments run_base {_ _} _.
Arguments run_target {_ _} _.

Section DiffStore.
Context `{Models} {T : Type} `{StoreReader T}.

(** The helpers of [diff.go], which [DiffStore] calls: the package index
    and the two comparison stages. A stage returns its map of entries and
    the diff-item counter as it leaves it. *)
Context {PkgMap : Type}.
Variable buildVulnerabilityPkgsMap : list Vulnerability → PkgMap.
Variable diffVulnerabilities :
  list Vulnerability → list Vulnerability → PkgMap → PkgMap → Manual →
  gmap string Diff * Manual.
Variable diffVulnerabilityMetadata :
  list VulnerabilityMetadata → list VulnerabilityMetadata → PkgMap → PkgMap →
  Manual → gmap string Diff * Manual.

(** The loop over [metaDiffsMap] that stores each of its entries in
    [allDiffsMap] under the same key. *)
Definition merge_stage_maps (allDiffsMap metaDiffsMap : gmap string Diff)
  : gmap string Diff :=
  map_fold (λ k diff allDiffsMap, <[k := diff]> allDiffsMap)
           allDiffsMap metaDiffsMap.

(** The loop over [allDiffsMap] that appends each entry to [allDiffs];
    the order in which a Go map is ranged over is not specified. *)
Definition flatten_diffs (allDiffsMap : gmap string Diff) : list Diff :=
  map_fold (λ _ diff allDiffs, allDiffs ++ [diff]) [] allDiffsMap.

(** [DiffStore]: a diff between the receiver (base) and [targetStore]. *)
Definition DiffStore (s : store) (targetStore : T) : DiffRun T :=
  (* 7 stages, one for each step of the diff process *)
  let '(rowsProgress, diffItems, stager) := trackDiff 7 in

  let stager := "reading target vulnerabilities" in
  let '(targetVulns, targetStore) := reader_GetAllVulnerabilities targetStore in
  let rowsProgress := Increment rowsProgress in
  match targetVulns with
  | Err err =>
      {| run_diffs := None; run_err := Some err;
         run_rowsProgress := rowsProgress; run_diffItems := diffItems;
         run_stage := stager; run_base := s; run_target := targetStore |}
  | Ok targetVulns =>

  let stager := "reading base vulnerabilities" in
  let '(baseVulns, s) := GetAllVulnerabilities s in
  let rowsProgress := Increment rowsProgress in
  match baseVulns with
  | Err err =>
      {| run_diffs := None; run_err := Some err;
         run_rowsProgress := rowsProgress; run_diffItems := diffItems;
         run_stage := stager; run_base := s; run_target := targetStore |}
  | Ok baseVulns =>

  let stager := "preparing" in
  let baseVulnPkgMap := buildVulnerabilityPkgsMap baseVulns in
  let targetVulnPkgMap := buildVulnerabilityPkgsMap targetVulns in

  let stager := "comparing vulnerabilities" in
  let '(allDiffsMap, diffItems) :=
    diffVulnerabilities baseVulns targetVulns baseVulnPkgMap targetVulnPkgMap
                        diffItems in

  let stager := "reading base metadata" in
  let '(baseMetadata, s) := GetAllVulnerabilityMetadata s in
  match baseMetadata with
  | Err err =>
      {| run_diffs := None; run_err := Some err;
         run_rowsProgress := rowsProgress; run_diffItems := diffItems;
         run_stage := stager; run_base := s; run_target := targetStore |}
  | Ok baseMetadata =>
  let rowsProgress := Increment rowsProgress in

  let stager := "reading target metadata" in
  let '(targetMetadata, targetStore) :=
    reader_GetAllVulnerabilityMetadata targetStore in
  match targetMetadata with
  | Err err =>
      {| run_diffs := None; run_err := Some err;
         run_rowsProgress := rowsProgress; run_diffItems := diffItems;
         run_stage := stager; run_base := s; run_target := targetStore |}
  | Ok targetMetadata =>
  let rowsProgress := Increment rowsProgress in

  let stager := "comparing metadata" in
  let '(metaDiffsMap, diffItems) :=
    diffVulnerabilityMetadata baseMetadata targetMetadata baseVulnPkgMap
                              targetVulnPkgMap diffItems in
  let allDiffsMap := merge_stage_maps allDiffsMap metaDiffsMap in
  let allDiffs := flatten_diffs allDiffsMap in

  let rowsProgress := SetCompleted rowsProgress in
  let diffItems := SetCompleted diffItems in

  {| run_diffs := Some allDiffs; run_err := None;
     run_rowsProgress := rowsProgress; run_diffItems := diffItems;
     run_stage := stager; run_base := s; run_target := targetStore |}
  end end end end.

End DiffStore.

(** ** A plain instance of package model

    Rows that hold the value they were built from; an exclusion row holds
    what its [Inflate] yields. Used to run the store on concrete tables. *)
Module Plain.

Record ExclusionRow := {
  row_ID : string;
  row_Inflate : result (option VulnerabilityMatchExclusion)
}.

Global Instance models : Models.
Proof.
  refine {|
    IDModel := ID;
    NewIDModel id := id;
    IDModel_Inflate id := Ok id;
    IDModel_Inflate_New id := eq_refl;
    VulnerabilityModel := Vulnerability;
    VulnerabilityModel_Namespace := vuln_Namespace;
    VulnerabilityModel_Inflate v := Ok v;
    VulnerabilityMetadataModel := VulnerabilityMetadata;
    VulnerabilityMetadataModel_ID := meta_ID;
    VulnerabilityMetadataModel_Namespace := meta_Namespace;
    NewVulnerabilityMetadataModel m := m;
    VulnerabilityMetadataModel_Inflate m := Ok m;
    VulnerabilityMetadataModel_Inflate_New m := eq_refl;
    VulnerabilityMetadataModel_ID_New m := eq_refl;
    VulnerabilityMetadataModel_Namespace_New m := eq_refl;
    VulnerabilityMatchExclusionModel := ExclusionRow;
    VulnerabilityMatchExclusionModel_ID := row_ID;
    VulnerabilityMatchExclusionModel_Inflate := row_Inflate
  |}; intros row m [= ->]; reflexivity.
Defined.

(** A store with the given tables and fault script, not yet closed. *)
Definition open_store (i : list ID) (v : list Vulnerability)
    (m : list VulnerabilityMetadata) (x : list ExclusionRow)
    (f : list (option string)) : @store models :=
  @Build_store models i v m x f [] false.

End Plain.

(** ** Sample values *)

Module Sample.

Definition A : Cvss :=
  {| Version := "3.1"; Vector := "AV:N/AC:L/PR:N/UI:N"; BaseScore := 75 |}.
Definition B : Cvss :=
  {| Version := "2.0"; Vector := "AV:L/AC:H/Au:N"; BaseScore := 40 |}.

Definition record (severity : string) (urls : list string)
    (cvss : list Cvss) : VulnerabilityMetadata :=
  {| meta_ID := "CVE-2020-1"; meta_Namespace := "nvd";
     meta_Severity := severity; meta_URLs := urls;
     meta_Description := "overflow"; meta_Cvss := cvss |}.

(** The same record under no namespace. *)
Definition unnamed (severity : string) (urls : list string)
    (cvss : list Cvss) : VulnerabilityMetadata :=
  {| meta_ID := "CVE-2020-1"; meta_Namespace := "";
     meta_Severity := severity; meta_URLs := urls;
     meta_Description := "overflow"; meta_Cvss := cvss |}.

(** A store whose metadata table holds the given records. *)
Definition holding (rows : list VulnerabilityMetadata) : store :=
  Plain.open_store [] [] rows [] [].

End Sample.

(** ** Notions used to state the properties *)

Section Notions.
Context `{Models}.

(** The outcomes of the next [n] inspected database calls. *)
Definition fault_outcomes (n : nat) (s : store) : list (option error) :=
  fault_error <$> take n (faults s ++ replicate n None).

(** The line [Close] logs for a statement, given the outcome of its [Exec]. *)
Definition statement_line (stmt : string) (outcome : option error) : LogLine :=
  match outcome with
  | Some err => LogWarnStatement stmt err "failed to apply memory optimization"
  | None => LogDebugStatement stmt "applied memory optimization"
  end.

(** The next [n] inspected database calls go through. *)
Definition calls_go_through (n : nat) (s : store) : Prop :=
  fault_outcomes n s = replicate n None.

(** The metadata record found for an ID and a namespace: what
    [GetVulnerabilityMetadata] returns when the read is not disturbed. *)
Definition stored_metadata (id namespace : string) (s : store)
  : result (option VulnerabilityMetadata) :=
  (GetVulnerabilityMetadata id namespace (set_faults [] s)).1.

(** The record the merge branch of [AddVulnerabilityMetadata] saves. *)
Definition merged_record (existing m : VulnerabilityMetadata)
  : VulnerabilityMetadata :=
  set_URLs (merge_URLs (meta_URLs existing) (meta_URLs m))
    (set_Cvss (merge_Cvss (meta_Cvss existing) (meta_Cvss m)) existing).

(** The entries of a list in the order in which they are first seen. *)
Fixpoint first_seen {A : Type} `{EqDecision A} (l : list A) : list A :=
  match l with
  | [] => []
  | x :: l => x :: filter (λ y, y ≠ x) (first_seen l)
  end.

(** No two entries of a list of scoring entries are structurally equal. *)
Definition Cvss_distinct (l : list Cvss) : Prop :=
  ∀ (i j : nat) (a b : Cvss),
    l !! i = Some a → l !! j = Some b → i ≠ j → deep_Equal a b ≠ [].

(** The next inspected database call goes through. *)
Definition call_goes_through (s : store) : Prop :=
  (next_fault s).1 = None.

(** The three ways an exclusion row can inflate. *)
Definition inflates_to_nil (m : VulnerabilityMatchExclusionModel) : bool :=
  match VulnerabilityMatchExclusionModel_Inflate m with
  | Ok None => true
  | _ => false
  end.

Definition inflate_fails (m : VulnerabilityMatchExclusionModel) : bool :=
  match VulnerabilityMatchExclusionModel_Inflate m with
  | Err _ => true
  | _ => false
  end.

Definition inflated_exclusion (m : VulnerabilityMatchExclusionModel)
  : option VulnerabilityMatchExclusion :=
  match VulnerabilityMatchExclusionModel_Inflate m with
  | Ok (Some exclusion) => Some exclusion
  | _ => None
  end.

End Notions.

Section DiffNotions.
Context `{Models} {T : Type} `{StoreReader T}.

(** The error of the first of the four full-table reads of [DiffStore] that
    fails, the reads being taken in the order in which [DiffStore] makes
    them. *)
Definition first_read_failure (s : store) (targetStore : T) : option error :=
  let '(targetVulns, targetStore) := reader_GetAllVulnerabilities targetStore in
  match targetVulns with
  | Err e => Some e
  | Ok _ =>
      let '(baseVulns, s) := GetAllVulnerabilities s in
      match baseVulns with
      | Err e => Some e
      | Ok _ =>
          let '(baseMetadata, s) := GetAllVulnerabilityMetadata s in
          match baseMetadata with
          | Err e => Some e
          | Ok _ =>
              let '(targetMetadata, _) :=
                reader_GetAllVulnerabilityMetadata targetStore in
              match targetMetadata with
              | Err e => Some e
              | Ok _ => None
              end
          end
      end
  end.

(** The entries of a stage map sit under the key that [key] derives from
    their own ID and namespace. *)
Definition keyed_by (key : string → string → string)
    (m : gmap string Diff) : Prop :=
  ∀ k d, m !! k = Some d → key (diff_ID d) (diff_Namespace d) = k.

End DiffNotions.

(** Sample diff entries for one key, and stages that return them. *)
Module SampleDiff.

Definition key (id namespace : string) : string := id +:+ ":" +:+ namespace.

Definition vulnerability_entry : Diff :=
  {| diff_ID := "CVE-2020-1"; diff_Namespace := "nvd"; diff_Kind := Removed;
     diff_Reasons := ["vulnerability removed"]; diff_Packages := ["curl"] |}.

Definition metadata_entry : Diff :=
  {| diff_ID := "CVE-2020-1"; diff_Namespace := "nvd"; diff_Kind := Changed;
     diff_Reasons := ["description changed"]; diff_Packages := ["curl"] |}.

Definition other_entry : Diff :=
  {| diff_ID := "CVE-2020-2"; diff_Namespace := "nvd"; diff_Kind := Added;
     diff_Reasons := ["vulnerability added"]; diff_Packages := ["zlib"] |}.

Definition allDiffsMap : gmap string Diff :=
  <[key "CVE-2020-2" "nvd" := other_entry]>
    {[ key "CVE-2020-1" "nvd" := vulnerability_entry ]}.

Definition metaDiffsMap : gmap string Diff :=
  {[ key "CVE-2020-1" "nvd" := metadata_entry ]}.

Definition buildVulnerabilityPkgsMap (_ : list Vulnerability) : unit := tt.

Definition diffVulnerabilities (_ _ : list Vulnerability) (_ _ : unit)
    (diffItems : Manual) : gmap string Diff * Manual :=
  (allDiffsMap, Increment (Increment diffItems)).

Definition diffVulnerabilityMetadata (_ _ : list VulnerabilityMetadata)
    (_ _ : unit) (diffItems : Manual) : gmap string Diff * Manual :=
  (metaDiffsMap, Increment diffItems).

(** [DiffStore] of two plain stores with these stages. *)
Definition run (s targetStore : @store Plain.models)
  : DiffRun (@store Plain.models) :=
  DiffStore buildVulnerabilityPkgsMap diffVulnerabilities
            diffVulnerabilityMetadata s targetStore.

End SampleDiff.

(** ** The other operations of store.go

    The vulnerability table and the writers of the vulnerability and
    exclusion tables. *)

(** What they use of package [model] beyond [Models]: the columns of a
    vulnerability row that the queries name, the constructors of rows, and
    the facts that a vulnerability row built from a value inflates back to
    it and that a row and the value it inflates to agree on those columns. *)
Class RowModels `{Models} := {
  VulnerabilityModel_ID : VulnerabilityModel → string;
  VulnerabilityModel_PackageName : VulnerabilityModel → string;
  NewVulnerabilityModel : Vulnerability → VulnerabilityModel;
  VulnerabilityModel_Inflate_New v :
    VulnerabilityModel_Inflate (NewVulnerabilityModel v) = Ok v;
  VulnerabilityModel_Inflate_ID row v :
    VulnerabilityModel_Inflate row = Ok v →
    vuln_ID v = VulnerabilityModel_ID row;
  VulnerabilityModel_Inflate_Namespace row v :
    VulnerabilityModel_Inflate row = Ok v →
    vuln_Namespace v = VulnerabilityModel_Namespace row;
  VulnerabilityModel_Inflate_PackageName row v :
    VulnerabilityModel_Inflate row = Ok v →
    vuln_PackageName v = VulnerabilityModel_PackageName row;

  NewVulnerabilityMatchExclusionModel :
    VulnerabilityMatchExclusion → VulnerabilityMatchExclusionModel;
  VulnerabilityMatchExclusionModel_ID_New x :
    VulnerabilityMatchExclusionModel_ID (NewVulnerabilityMatchExclusionModel x)
    = excl_ID x
}.

(** What the two plain batch writers return: the error of the database
    handle, or one of their own. *)
Inductive insert_error :=
  | ErrCreate (e : error)
      (* [result.Error] *)
  | ErrAddVulnerability (rows : Z)
      (* "unable to add vulnerability (%d rows affected)" *)
  | ErrAddMatchExclusion (rows : Z)
      (* "unable to add vulnerability match exclusion (%d rows affected)" *).

Section MoreStore.
Context `{RowModels}.

Definition set_vulnerabilities (x : list VulnerabilityModel) (s : store) : store :=
  {| ids := ids s; vulnerabilities := x; metadata := metadata s;
     exclusions := exclusions s; faults := faults s; executed := executed s;
     released := released s |}.

(** [GetVulnerability]: by id, and by namespace when one is given. *)
Definition GetVulnerability (namespace id : string) (s : store)
  : list Vulnerability * option error * store :=
  let query := filter (λ m, VulnerabilityModel_ID m = id) (vulnerabilities s) in
  let query :=
    if decide (namespace ≠ "")
    then filter (λ m, VulnerabilityModel_Namespace m = namespace) query
    else query in
  let '(models, err, s) := db_Find query s in
  match inflate_all VulnerabilityModel_Inflate models with
  | Err e => ([], Some e, s)
  | Ok vulnerabilities => (vulnerabilities, err, s)
  end.

(** [SearchForVulnerabilities]: by namespace and package. *)
Definition SearchForVulnerabilities (namespace packageName : string) (s : store)
  : list Vulnerability * option error * store :=
  let '(models, err, s) :=
    db_Find (filter (λ m, VulnerabilityModel_Namespace m = namespace ∧
                          VulnerabilityModel_PackageName m = packageName)
                    (vulnerabilities s)) s in
  match inflate_all VulnerabilityModel_Inflate models with
  | Err e => ([], Some e, s)
  | Ok vulnerabilities => (vulnerabilities, err, s)
  end.

(** [AddVulnerability]. *)
Fixpoint AddVulnerability (vulns : list Vulnerability) (s : store)
  : option insert_error * store :=
  match vulns with
  | [] => (None, s)
  | vulnerability :: vulns =>
      let m := NewVulnerabilityModel vulnerability in
      let '(result, s) :=
        db_write (λ s, (1, set_vulnerabilities (vulnerabilities s ++ [m]) s)) s in
      match Error result with
      | Some e => (Some (ErrCreate e), s)
      | None =>
          if decide (RowsAffected result ≠ 1) then
            (Some (ErrAddVulnerability (RowsAffected result)), s)
          else AddVulnerability vulns s
      end
  end.

(** [AddVulnerabilityMatchExclusion]. *)
Fixpoint AddVulnerabilityMatchExclusion
    (excls : list VulnerabilityMatchExclusion) (s : store)
  : option insert_error * store :=
  match excls with
  | [] => (None, s)
  | exclusion :: excls =>
      let m := NewVulnerabilityMatchExclusionModel exclusion in
      let '(result, s) :=
        db_write (λ s, (1, set_exclusions (exclusions s ++ [m]) s)) s in
      match Error result with
      | Some e => (Some (ErrCreate e), s)
      | None =>
          if decide (RowsAffected result ≠ 1) then
            (Some (ErrAddMatchExclusion (RowsAffected result)), s)
          else AddVulnerabilityMatchExclusion excls s
      end
  end.

(** How many of the next [n] database calls go through before one is
    refused. *)
Fixpoint calls_before_fault (n : nat) (script : list (option string)) : nat :=
  match n with
  | O => O
  | S n =>
      match script with
      | [] => S n
      | None :: script => S (calls_before_fault n script)
      | Some _ :: _ => O
      end
  end.

End MoreStore.

(** The plain rows: a vulnerability row is the value itself, an exclusion
    row built from a rule inflates to it. *)
Module PlainRows.

Global Instance rows : @RowModels Plain.models.
Proof.
  refine {|
    VulnerabilityModel_ID := vuln_ID : @VulnerabilityModel Plain.models → string;
    VulnerabilityModel_PackageName :=
      vuln_PackageName : @VulnerabilityModel Plain.models → string;
    NewVulnerabilityModel v := v : @VulnerabilityModel Plain.models;
    VulnerabilityModel_Inflate_New v := eq_refl;
    NewVulnerabilityMatchExclusionModel x :=
      {| Plain.row_ID := excl_ID x; Plain.row_Inflate := Ok (Some x) |}
      : @VulnerabilityMatchExclusionModel Plain.models;
    VulnerabilityMatchExclusionModel_ID_New x := eq_refl
  |}; intros row v [= ->]; reflexivity.
Defined.

Definition vuln (id namespace package constraint : string) : Vulnerability :=
  {| vuln_ID := id; vuln_Namespace := namespace;
     vuln_PackageName := package; vuln_VersionConstraint := constraint |}.

End PlainRows.

Section MoreNotions.
Context `{Models}.

(** The store with no fault pending: what an operation does on it is what
    it does when the backend does not interfere. *)
Definition undisturbed (s : store) : store := set_faults [] s.

End MoreNotions.

Section MetadataTables.
Context `{Models}.

(** The key columns of a metadata row. *)
Definition row_key (m : VulnerabilityMetadataModel) : string * string :=
  (VulnerabilityMetadataModel_ID m, VulnerabilityMetadataModel_Namespace m).

Definition metadata_keys (s : store) : list (string * string) :=
  row_key <$> metadata s.

(** The key of a metadata record. *)
Definition meta_key (m : VulnerabilityMetadata) : string * string :=
  (meta_ID m, meta_Namespace m).

(** The metadata table after the rows of a primary key have been
    overwritten. *)
Definition replace_rows (id namespace : string)
    (new : VulnerabilityMetadataModel) (l : list VulnerabilityMetadataModel)
  : list VulnerabilityMetadataModel :=
  (λ r, if decide (metadata_primary_key_is id namespace r) then new else r)
  <$> l.

(** The lookup made for a record selects the rows of a key: each of the ID
    and namespace of the record is empty or is that of the key. *)
Definition selects (m : VulnerabilityMetadata) (k : string * string) : Prop :=
  (meta_ID m = "" ∨ meta_ID m = k.1) ∧
  (meta_Namespace m = "" ∨ meta_Namespace m = k.2).

(** A metadata table in order: no two rows under one key, and every row
    inflates. *)
Definition metadata_table_ok (s : store) : Prop :=
  NoDup (metadata_keys s) ∧
  Forall (λ r, ∃ m, VulnerabilityMetadataModel_Inflate r = Ok m) (metadata s).

(** The stored record [r'] extends [r]: same key, severity and
    description, the scoring entries of [r] first, and all its links. *)
Definition extends (r r' : VulnerabilityMetadata) : Prop :=
  meta_ID r' = meta_ID r ∧ meta_Namespace r' = meta_Namespace r ∧
  meta_Severity r' = meta_Severity r ∧
  meta_Description r' = meta_Description r ∧
  meta_Cvss r `prefix_of` meta_Cvss r' ∧
  ∀ u, u ∈ meta_URLs r → u ∈ meta_URLs r'.

End MetadataTables.

(** * Properties *)

Section StoreFacts.
Context `{Models}.

(** ** The database handle *)

Lemma next_fault_tables (s s' : store) fault :
  next_fault s = (fault, s') →
  ids s' = ids s ∧ vulnerabilities s' = vulnerabilities s ∧
  metadata s' = metadata s ∧ exclusions s' = exclusions s ∧
  executed s' = executed s ∧ released s' = released s.
Proof.
  unfold next_fault. destruct (faults s); intros [= <- <-]; done.
Qed.

Lemma db_Find_cases {A : Type} (rows : list A) (s : store) :
  (∃ s', db_Find rows s = (rows, None, s') ∧ next_fault s = (None, s')) ∨
  (∃ e s', db_Find rows s = ([], Some e, s') ∧ next_fault s = (Some e, s')).
Proof.
  unfold db_Find. destruct (next_fault s) as [[e|] s'] eqn:E; eauto.
Qed.

(** ** Identity *)

(** One call of [SetID]: the new row goes in or the insert is refused and
    the caller is told so; the old rows are gone when the read and the
    delete went through, and still there otherwise. *)
Lemma SetID_cases (id : ID) (s : store) :
  ((SetID id s).1 = None ∧ ids (SetID id s).2 = [NewIDModel id]) ∨
  ((SetID id s).1 = None ∧ ids (SetID id s).2 = ids s ++ [NewIDModel id] ∧
   ¬ calls_go_through 2 s) ∨
  ((SetID id s).1 = Some (ErrAddID 0) ∧ ids (SetID id s).2 = []) ∨
  ((SetID id s).1 = Some (ErrAddID 0) ∧ ids (SetID id s).2 = ids s ∧
   ¬ calls_go_through 2 s).
Proof.
  destruct s as [i v m x f ex r].
  unfold SetID, db_Find, db_write, next_fault, calls_go_through, fault_outcomes.
  cbn [faults ids set_faults set_ids].
  destruct f as [|[m1|] [|[m2|] [|[m3|] f]]]; destruct i as [|i0 i]; cbn;
    first
      [ left; split; reflexivity
      | right; left; split; [reflexivity|]; split; [reflexivity|];
        intros Hgo; discriminate Hgo
      | right; right; left; split; reflexivity
      | right; right; right; split; [reflexivity|]; split; [reflexivity|];
        intros Hgo; discriminate Hgo ].
Qed.

Lemma SetID_seq_snoc (l : list ID) (id : ID) (s : store) :
  SetID_seq (l ++ [id]) s =
  let '(errs, s1) := SetID_seq l s in
  let '(err, s') := SetID id s1 in
  (errs ++ [err], s').
Proof.
  revert s. induction l as [|x l IH]; intros s; simpl.
  - by destruct (SetID id s).
  - destruct (SetID x s) as [e s0]. rewrite IH.
    destruct (SetID_seq l s0) as [errs s1]. by destruct (SetID id s1).
Qed.

Lemma GetID_single (id : ID) (s : store) :
  ids s = [NewIDModel id] → call_goes_through s →
  (GetID s).1 = Ok (Some id).
Proof.
  intros Hids Hf. unfold GetID.
  destruct (db_Find_cases (ids s) s) as [(s' & -> & _)|(e & s' & _ & E)].
  - rewrite Hids, IDModel_Inflate_New. done.
  - unfold call_goes_through in Hf. rewrite E in Hf. done.
Qed.

(** The outcome of [SetID] is that of its insert, the third call it makes
    on the database. *)
Lemma SetID_outcome (id : ID) (s : store) :
  (SetID id s).1 = None ↔
  call_goes_through (set_faults (drop 2 (faults s)) s).
Proof.
  destruct s as [i v m x f ex r].
  unfold SetID, db_Find, db_write, next_fault, call_goes_through.
  cbn [faults ids set_faults set_ids].
  destruct f as [|[m1|] [|[m2|] [|[m3|] f]]]; destruct i as [|i0 i]; cbn;
    split; intros Hgo; first [reflexivity|discriminate Hgo].
Qed.

(** C6, as the code has it. After a sequence of [SetID] calls of which the
    last returned without error, the row of the identity set last is the
    last row of the identity table; when the read and the delete of that
    call went through it is the only row, and [GetID] (when its own read
    goes through) returns the identity set last. [SetID] returns an error
    exactly when its insert is refused, and the error is a write mismatch:
    what is checked is the number of rows the insert affected. *)
Theorem identity_singleton (l : list ID) (id : ID) (s s' : store)
    (errs : list (option error)) :
  SetID_seq (l ++ [id]) s = (errs, s') →
  let s1 := (SetID_seq l s).2 in
  (last errs = Some None →
     last (ids s') = Some (NewIDModel id) ∧
     (calls_go_through 2 s1 →
        ids s' = [NewIDModel id] ∧
        (call_goes_through s' → (GetID s').1 = Ok (Some id)))) ∧
  (last errs = Some None ↔
   call_goes_through (set_faults (drop 2 (faults s1)) s1)) ∧
  (∀ e, last errs = Some (Some e) → WriteMismatch e) ∧
  (last errs = Some None ∨ ∃ e, last errs = Some (Some e)).
Proof.
  rewrite SetID_seq_snoc.
  destruct (SetID_seq l s) as [errs1 s1]. simpl.
  pose proof (SetID_cases id s1) as Hcases.
  pose proof (SetID_outcome id s1) as Hout.
  destruct (SetID id s1) as [err s2]. simpl in Hcases, Hout.
  intros [= <- <-]. rewrite last_snoc.
  assert (Hout' : Some err = Some None ↔
                  call_goes_through (set_faults (drop 2 (faults s1)) s1)).
  { rewrite <- Hout. split; [by intros [= ->]|by intros ->]. }
  split; [|split; [exact Hout'|]].
  - intros [= ->].
    destruct Hcases as [(_ & Hids)|[(_ & Hids & Hno)|[([=] & _)|([=] & _)]]].
    + split; [by rewrite Hids|]. intros _. split; [done|].
      by apply GetID_single.
    + split; [by rewrite Hids, last_snoc|]. intros Hgo. by destruct Hno.
  - destruct Hcases as [(-> & _)|[(-> & _)|[(-> & _)|(-> & _)]]].
    + split; [by intros e [=]|by left].
    + split; [by intros e [=]|by left].
    + split; [|right; eauto]. intros e [= <-]. exact I.
    + split; [|right; eauto]. intros e [= <-]. exact I.
Qed.

End StoreFacts.

(** Three identities set in a row on a store that held two rows. *)
Lemma identity_singleton_witness :
  let s := Plain.open_store
             [ {| BuildTimestamp := 1; SchemaVersion := 5 |};
               {| BuildTimestamp := 2; SchemaVersion := 5 |} ] [] [] [] [] in
  let id := {| BuildTimestamp := 30; SchemaVersion := 5 |} in
  let s' := (SetID_seq ([ {| BuildTimestamp := 10; SchemaVersion := 5 |};
                          {| BuildTimestamp := 20; SchemaVersion := 5 |} ]
                        ++ [id]) s).2 in
  ids s' = [id] ∧ (GetID s').1 = Ok (Some id).
Proof.
  intros s id s'.
  destruct (@identity_singleton Plain.models
              [ {| BuildTimestamp := 10; SchemaVersion := 5 |};
                {| BuildTimestamp := 20; SchemaVersion := 5 |} ]
              id s s' [None; None; None] eq_refl) as [Hok _].
  destruct (Hok eq_refl) as [_ Hone].
  destruct (Hone eq_refl) as [Hids Hget].
  split; [exact Hids|]. apply Hget. reflexivity.
Defined.

(** C6, as stated, fails: a store that holds one identity, and a backend
    that lets the read of [SetID] through and refuses its delete. [SetID]
    returns without error, the table then holds two rows and [GetID]
    reports several identities. *)
Lemma identity_singleton_counterexample :
  let old := {| BuildTimestamp := 1; SchemaVersion := 5 |} in
  let id := {| BuildTimestamp := 2; SchemaVersion := 5 |} in
  let s := Plain.open_store [old] [] [] [] [None; Some "database is locked"] in
  let s' := (SetID_seq [id] s).2 in
  (SetID_seq [id] s).1 = [None] ∧
  ids s' = [old; id] ∧
  (GetID s').1 = Err ErrMultipleIDs ∧
  ¬ (length (ids s') = 1%nat ∧ (GetID s').1 = Ok (Some id)) ∧
  ¬ (length (ids s') ≠ 1%nat →
     ∃ e, last (SetID_seq [id] s).1 = Some (Some e) ∧ WriteMismatch e).
Proof.
  intros old id s s'. split; [reflexivity|]. split; [reflexivity|].
  split; [reflexivity|]. split.
  - intros [Hlen _]. discriminate Hlen.
  - intros Hfail. destruct Hfail as (e & He & _); [discriminate|].
    discriminate He.
Qed.

Section ReadFacts.
Context `{Models}.

(** ** Namespaces *)

(** C5, as the code has it. [GetVulnerabilityNamespaces] reads the metadata
    table: when its read goes through, the names returned are, without
    repetition, the namespaces occurring among the vulnerability metadata
    records of the store. *)
Theorem namespaces_of_metadata_records (s : store) :
  call_goes_through s →
  let '(names, err, _) := GetVulnerabilityNamespaces s in
  err = None ∧ NoDup names ∧
  ∀ n, n ∈ names ↔
       ∃ m, m ∈ metadata s ∧ VulnerabilityMetadataModel_Namespace m = n.
Proof.
  unfold call_goes_through, GetVulnerabilityNamespaces. intros Hf.
  destruct (db_Find_cases
              (remove_dups (VulnerabilityMetadataModel_Namespace <$> metadata s)) s)
    as [(s' & -> & _)|(e & s' & _ & E)]; [|by rewrite E in Hf].
  split; [done|]. split; [apply NoDup_remove_dups|].
  intros n. rewrite elem_of_remove_dups, list_elem_of_fmap.
  split; intros (m & ? & ?); exists m; done.
Qed.

(** ** Match exclusions *)

Lemma inflate_exclusions_skip_nil
    (models : list VulnerabilityMatchExclusionModel) acc :
  inflate_exclusions (filter (λ m, inflates_to_nil m = false) models) acc
  = inflate_exclusions models acc.
Proof.
  revert acc. induction models as [|m models IH]; intros acc; [done|].
  rewrite filter_cons.
  destruct (decide (inflates_to_nil m = false)) as [Hn|Hn];
    unfold inflates_to_nil in Hn; simpl;
    destruct (VulnerabilityMatchExclusionModel_Inflate m) as [[x|]|e];
    done || auto.
Qed.

Lemma inflate_exclusions_ok
    (models : list VulnerabilityMatchExclusionModel) acc :
  Forall (λ m, inflate_fails m = false) models →
  inflate_exclusions models acc = Ok (acc ++ omap inflated_exclusion models).
Proof.
  intros Hall. revert acc.
  induction Hall as [|m models Hm _ IH]; intros acc; simpl.
  - by rewrite app_nil_r.
  - unfold inflate_fails in Hm. unfold inflated_exclusion at 1.
    destruct (VulnerabilityMatchExclusionModel_Inflate m) as [[x|]|e];
      [|done..].
    rewrite IH. by rewrite <- app_assoc.
Qed.

(** C10. [GetVulnerabilityMatchExclusion] passes over the rows whose
    inflation yields nil: with those rows taken out of the table it returns
    the same list and the same error; and when no row stored under the id
    fails to inflate and the read goes through, it returns no error and
    exactly the non-nil inflated exclusions of the rows stored under the
    id, in table order. *)
Theorem exclusions_omit_nil_rows (id : string) (s : store) :
  (GetVulnerabilityMatchExclusion id
     (set_exclusions (filter (λ m, inflates_to_nil m = false) (exclusions s)) s)).1
  = (GetVulnerabilityMatchExclusion id s).1
  ∧
  (call_goes_through s →
   Forall (λ m, inflate_fails m = false)
          (filter (λ m, VulnerabilityMatchExclusionModel_ID m = id) (exclusions s)) →
   (GetVulnerabilityMatchExclusion id s).1
   = (omap inflated_exclusion
        (filter (λ m, VulnerabilityMatchExclusionModel_ID m = id) (exclusions s)),
      None)).
Proof.
  split.
  - unfold GetVulnerabilityMatchExclusion, db_Find, next_fault. simpl.
    destruct (faults s) as [|[msg|] fs]; simpl; [|done|].
    + rewrite list_filter_filter.
      rewrite (list_filter_iff _
                 (λ m, inflates_to_nil m = false ∧
                       VulnerabilityMatchExclusionModel_ID m = id))
        by (intros; tauto).
      rewrite <- list_filter_filter, inflate_exclusions_skip_nil.
      by destruct (inflate_exclusions _ _).
    + rewrite list_filter_filter.
      rewrite (list_filter_iff _
                 (λ m, inflates_to_nil m = false ∧
                       VulnerabilityMatchExclusionModel_ID m = id))
        by (intros; tauto).
      rewrite <- list_filter_filter, inflate_exclusions_skip_nil.
      by destruct (inflate_exclusions _ _).
  - intros Hf Hall. unfold GetVulnerabilityMatchExclusion.
    destruct (db_Find_cases
                (filter (λ m, VulnerabilityMatchExclusionModel_ID m = id)
                        (exclusions s)) s)
      as [(s' & -> & _)|(e & s' & _ & E)].
    + by rewrite (inflate_exclusions_ok _ _ Hall).
    + unfold call_goes_through in Hf. by rewrite E in Hf.
Qed.

(** ** Close *)

Lemma db_Exec_spec (stmt : string) (s : store) :
  let '(err, s') := db_Exec stmt s in
  err = fault_error (default None (head (faults s))) ∧
  executed s' = executed s ++ [(stmt, err)] ∧
  faults s' = tail (faults s) ∧
  ids s' = ids s ∧ vulnerabilities s' = vulnerabilities s ∧
  metadata s' = metadata s ∧ exclusions s' = exclusions s ∧
  released s' = released s.
Proof.
  unfold db_Exec, next_fault. destruct (faults s) as [|f fs] eqn:E; simpl; done.
Qed.

Lemma fault_outcomes_S (n : nat) (s : store) :
  fault_outcomes (S n) s
  = fault_error (default None (head (faults s)))
    :: (fault_error <$> take n (tail (faults s) ++ replicate n None)).
Proof.
  unfold fault_outcomes. destruct (faults s) as [|f fs]; simpl.
  - done.
  - f_equal. f_equal. rewrite !take_app. f_equal.
    change (None :: replicate n None) with (replicate (S n) (@None string)).
    rewrite !take_replicate. f_equal. lia.
Qed.

Lemma apply_statements_spec (stmts : list string) (s : store) :
  let '(lines, s') := apply_statements stmts s in
  executed s' = executed s ++ zip stmts (fault_outcomes (length stmts) s) ∧
  faults s' = drop (length stmts) (faults s) ∧
  ids s' = ids s ∧ vulnerabilities s' = vulnerabilities s ∧
  metadata s' = metadata s ∧ exclusions s' = exclusions s ∧
  released s' = released s.
Proof.
  revert s. induction stmts as [|stmt stmts IH]; intros s.
  - simpl. rewrite app_nil_r. done.
  - cbn [apply_statements length].
    pose proof (db_Exec_spec stmt s) as Hx.
    destruct (db_Exec stmt s) as [err s1].
    destruct Hx as (Herr & Hex & Hfl & Hi & Hv & Hm & Hx & Hr).
    specialize (IH s1). destruct (apply_statements stmts s1) as [lines s2].
    destruct IH as (Hex2 & Hfl2 & Hi2 & Hv2 & Hm2 & Hx2 & Hr2).
    rewrite Hex2, Hfl2, Hi2, Hv2, Hm2, Hx2, Hr2, Hex, Hfl, Hi, Hv, Hm, Hx, Hr.
    repeat split; try done.
    + rewrite fault_outcomes_S. unfold fault_outcomes. rewrite Hfl.
      rewrite <- app_assoc. simpl. by rewrite Herr.
    + destruct (faults s); simpl; [by rewrite drop_nil|done].
Qed.

(** C8. [Close] returns no error whatever the backend reports: the four
    memory settings and then the vacuum are all handed to the database, in
    this order, each with the outcome of its own call; a setting that fails
    is logged as a warning and the following ones are still applied; the
    tables are left as they were. *)
Theorem Close_never_fails (s : store) :
  let '(err, log, s') := Close s in
  err = None ∧
  executed s'
  = executed s ++ zip (memoryEfficientStatements ++ ["VACUUM;"])
                      (fault_outcomes 5 s) ∧
  log
  = [LogDebug "optimizing database settings for memory-efficient VACUUM"]
    ++ zip_with statement_line memoryEfficientStatements (fault_outcomes 4 s)
    ++ [LogDebug "starting database VACUUM operation";
        LogDebug "database VACUUM operation completed"] ∧
  ids s' = ids s ∧ vulnerabilities s' = vulnerabilities s ∧
  metadata s' = metadata s ∧ exclusions s' = exclusions s.
Proof.
  destruct s as [i v m x f ex r].
  unfold Close, fault_outcomes, memoryEfficientStatements.
  cbn [apply_statements]. unfold db_Exec, next_fault. cbn [faults set_faults
    set_executed executed ids vulnerabilities metadata exclusions released].
  destruct f as [|f1 [|f2 [|f3 [|f4 [|f5 [|[f6|] [|[f7|] f]]]]]]];
    cbn; rewrite <- ?app_assoc; repeat split; reflexivity.
Qed.

End ReadFacts.

(** One metadata record in namespace "nvd"; the read goes through. *)
Lemma namespaces_of_metadata_records_witness :
  let s := Plain.open_store [] []
             [ {| meta_ID := "CVE-1"; meta_Namespace := "nvd";
                  meta_Severity := "High"; meta_URLs := [];
                  meta_Description := ""; meta_Cvss := [] |} ] [] [] in
  (GetVulnerabilityNamespaces s).1 = (["nvd"], None).
Proof.
  intros s.
  pose proof (namespaces_of_metadata_records s eq_refl) as Hs.
  destruct (GetVulnerabilityNamespaces s) as [[names err] s'] eqn:E.
  destruct Hs as (-> & _ & _). vm_compute in E. by injection E as <- _.
Defined.

(** C5, as stated, fails: a store with one vulnerability record (namespace
    "debian:10") and no metadata record. The namespaces of the
    vulnerability records are not the names returned. *)
Lemma namespaces_of_vulnerability_records_counterexample :
  let s := Plain.open_store []
             [ {| vuln_ID := "CVE-1"; vuln_Namespace := "debian:10";
                  vuln_PackageName := "curl";
                  vuln_VersionConstraint := "< 2.0" |} ] [] [] [] in
  (GetVulnerabilityNamespaces s).1 = ([], None) ∧
  ¬ (∀ n, n ∈ (GetVulnerabilityNamespaces s).1.1 ↔
          ∃ v, v ∈ vulnerabilities s ∧ VulnerabilityModel_Namespace v = n).
Proof.
  intros s. split; [reflexivity|].
  intros Hall. destruct (Hall "debian:10") as [_ Hin].
  assert (Hel : "debian:10" ∈ (GetVulnerabilityNamespaces s).1.1).
  { apply Hin. eexists. split; [apply list_elem_of_here|reflexivity]. }
  vm_compute in Hel. by apply elem_of_nil in Hel.
Qed.

(** Three rows under "CVE-1": one inflates to a rule, one to nil. *)
Lemma exclusions_omit_nil_rows_witness :
  let rule := {| excl_ID := "CVE-1"; excl_Justification := "not affected" |} in
  let s := Plain.open_store [] [] []
             [ {| Plain.row_ID := "CVE-1"; Plain.row_Inflate := Ok None |};
               {| Plain.row_ID := "CVE-2"; Plain.row_Inflate := Err (ErrInflate "bad") |};
               {| Plain.row_ID := "CVE-1"; Plain.row_Inflate := Ok (Some rule) |} ]
             [] in
  (GetVulnerabilityMatchExclusion "CVE-1" s).1 = ([rule], None).
Proof.
  intros rule s.
  destruct (exclusions_omit_nil_rows "CVE-1" s) as [_ Hs].
  rewrite Hs.
  - reflexivity.
  - reflexivity.
  - vm_compute. repeat constructor.
Defined.

(** ** The merge of scoring entries and links *)

Section MergeFacts.

Lemma deep_Equal_nil (a b : Cvss) : deep_Equal a b = [] ↔ a = b.
Proof.
  unfold deep_Equal. destruct a as [v1 w1 b1], b as [v2 w2 b2]; simpl. split.
  - repeat case_decide; intros Heq; try discriminate Heq. congruence.
  - intros [= -> -> ->]. by rewrite !decide_True.
Qed.

Lemma cvss_stored_elem_of (c : Cvss) (l : list Cvss) :
  cvss_stored c l = true ↔ c ∈ l.
Proof.
  unfold cvss_stored. induction l as [|x l IH]; simpl.
  - split; [done|]. by intros ?%elem_of_nil.
  - rewrite orb_true_iff, IH, elem_of_cons, bool_decide_eq_true.
    rewrite length_zero_iff_nil, deep_Equal_nil. done.
Qed.

Lemma merge_Cvss_cons (e : list Cvss) (c : Cvss) (i : list Cvss) :
  merge_Cvss e (c :: i)
  = merge_Cvss (if decide (c ∈ e) then e else e ++ [c]) i.
Proof.
  unfold merge_Cvss. simpl. f_equal.
  destruct (cvss_stored c e) eqn:E.
  - apply cvss_stored_elem_of in E. by rewrite decide_True.
  - rewrite decide_False; [done|]. intros Hin.
    apply cvss_stored_elem_of in Hin. congruence.
Qed.

Lemma elem_of_first_seen {A : Type} `{EqDecision A} (l : list A) (x : A) :
  x ∈ first_seen l ↔ x ∈ l.
Proof.
  induction l as [|y l IH]; simpl; [done|].
  rewrite !elem_of_cons, list_elem_of_filter, IH.
  destruct (decide (x = y)); tauto.
Qed.

Lemma NoDup_first_seen {A : Type} `{EqDecision A} (l : list A) :
  NoDup (first_seen l).
Proof.
  induction l as [|y l IH]; simpl; constructor.
  - rewrite list_elem_of_filter. intros [Hne _]. by apply Hne.
  - by apply NoDup_filter.
Qed.

Lemma filter_all {A : Type} (P : A → Prop) `{∀ x, Decision (P x)} (l : list A) :
  (∀ x, x ∈ l → P x) → filter P l = l.
Proof.
  induction l as [|y l IH]; intros Hall; [done|].
  rewrite filter_cons_True by (apply Hall, list_elem_of_here).
  f_equal. apply IH. intros x Hx. apply Hall. by apply list_elem_of_further.
Qed.

Lemma filter_none {A : Type} (P : A → Prop) `{∀ x, Decision (P x)} (l : list A) :
  (∀ x, x ∈ l → ¬ P x) → filter P l = [].
Proof.
  induction l as [|y l IH]; intros Hall; [done|].
  rewrite filter_cons_False by (apply Hall, list_elem_of_here).
  apply IH. intros x Hx. apply Hall. by apply list_elem_of_further.
Qed.

Lemma filter_comm {A : Type} (P Q : A → Prop)
    `{∀ x, Decision (P x)} `{∀ x, Decision (Q x)} (l : list A) :
  filter P (filter Q l) = filter Q (filter P l).
Proof.
  rewrite !list_filter_filter. apply list_filter_iff. intros; tauto.
Qed.

Lemma filter_first_seen {A : Type} `{EqDecision A}
    (P : A → Prop) `{∀ x, Decision (P x)} (l : list A) :
  filter P (first_seen l) = first_seen (filter P l).
Proof.
  induction l as [|y l IH]; simpl; [done|].
  destruct (decide (P y)) as [Hy|Hy].
  - rewrite !filter_cons_True by done. simpl. f_equal.
    by rewrite filter_comm, IH.
  - rewrite !filter_cons_False by done.
    rewrite filter_comm, IH. apply filter_all.
    intros x Hx Heq. subst x.
    apply elem_of_first_seen, list_elem_of_filter in Hx. tauto.
Qed.

(** The merged list is the existing one followed by the incoming entries
    that are not in it, each once, in the order of their first occurrence. *)
Lemma merge_Cvss_spec (e i : list Cvss) :
  merge_Cvss e i = e ++ first_seen (filter (λ c, c ∉ e) i).
Proof.
  revert e. induction i as [|c i IH]; intros e.
  - unfold merge_Cvss. simpl. by rewrite app_nil_r.
  - rewrite merge_Cvss_cons. destruct (decide (c ∈ e)) as [Hin|Hin].
    + rewrite IH, filter_cons_False; [done|]. by intros Hn.
    + rewrite IH, filter_cons_True by done. simpl.
      rewrite <- app_assoc. simpl. do 2 f_equal.
      rewrite filter_first_seen. f_equal.
      rewrite list_filter_filter. apply list_filter_iff.
      intros x. rewrite elem_of_app, list_elem_of_singleton. tauto.
Qed.

Lemma merge_Cvss_NoDup (e i : list Cvss) :
  NoDup e → NoDup (merge_Cvss e i).
Proof.
  intros He. rewrite merge_Cvss_spec. apply NoDup_app. split; [done|]. split.
  - intros x Hx Hx'.
    apply elem_of_first_seen, list_elem_of_filter in Hx'. tauto.
  - apply NoDup_first_seen.
Qed.

Lemma merge_Cvss_absorb (e i : list Cvss) :
  (∀ c, c ∈ i → c ∈ e) → merge_Cvss e i = e.
Proof.
  intros Hsub. rewrite merge_Cvss_spec, filter_none.
  - simpl. by rewrite app_nil_r.
  - intros c Hc Hn. by apply Hn, Hsub.
Qed.

Lemma elem_of_merge_Cvss (e i : list Cvss) (c : Cvss) :
  c ∈ merge_Cvss e i ↔ c ∈ e ∨ c ∈ i.
Proof.
  rewrite merge_Cvss_spec, elem_of_app, elem_of_first_seen, list_elem_of_filter.
  destruct (decide (c ∈ e)); tauto.
Qed.

Lemma elem_of_foldl_Add (links : gset string) (incoming : list string) u :
  u ∈ foldl StringSet_Add links incoming ↔ u ∈ links ∨ u ∈ incoming.
Proof.
  revert links. induction incoming as [|l incoming IH]; intros links; simpl.
  - rewrite elem_of_nil. tauto.
  - rewrite IH. unfold StringSet_Add. rewrite elem_of_union, elem_of_singleton.
    rewrite elem_of_cons. tauto.
Qed.

Lemma elem_of_merge_URLs (e i : list string) (u : string) :
  u ∈ merge_URLs e i ↔ u ∈ e ∨ u ∈ i.
Proof.
  unfold merge_URLs, sort_Strings, StringSet_ToSlice, NewStringSetFromSlice.
  rewrite merge_sort_Permutation, elem_of_elements, elem_of_foldl_Add.
  by rewrite elem_of_list_to_set.
Qed.

Lemma Sorted_merge_URLs (e i : list string) :
  Sorted String.le (merge_URLs e i).
Proof. apply (Sorted_merge_sort String.le). Qed.

Lemma NoDup_merge_URLs (e i : list string) : NoDup (merge_URLs e i).
Proof.
  unfold merge_URLs, sort_Strings, StringSet_ToSlice.
  rewrite merge_sort_Permutation. apply NoDup_elements.
Qed.

(** Links that are already stored, sorted and without repeats, stay as
    they are. *)
Lemma merge_URLs_absorb (e i : list string) :
  Sorted String.le e → NoDup e → (∀ u, u ∈ i → u ∈ e) →
  merge_URLs e i = e.
Proof.
  intros Hs Hn Hsub. apply (Sorted_unique String.le).
  - apply Sorted_merge_URLs.
  - done.
  - apply NoDup_Permutation; [apply NoDup_merge_URLs|done|].
    intros u. rewrite elem_of_merge_URLs. split; [|tauto].
    intros [?|?]; auto.
Qed.

End MergeFacts.

(** ** Adding metadata *)

Section MetadataFacts.
Context `{Models}.

Lemma next_fault_eq (s : store) :
  next_fault s
  = (fault_error (default None (head (faults s))),
     set_faults (tail (faults s)) s).
Proof. destruct s as [i v m x f ex r]. by destruct f. Qed.

Lemma calls_go_through_S (n : nat) (s : store) :
  calls_go_through (S n) s ↔
  fault_error (default None (head (faults s))) = None ∧
  calls_go_through n (set_faults (tail (faults s)) s).
Proof.
  unfold calls_go_through. rewrite fault_outcomes_S. simpl.
  unfold fault_outcomes. simpl. split.
  - by intros [= -> ->].
  - by intros [-> ->].
Qed.

Lemma call_goes_through_1 (s : store) :
  call_goes_through s ↔ calls_go_through 1 s.
Proof.
  unfold call_goes_through. rewrite next_fault_eq, calls_go_through_S. simpl.
  unfold calls_go_through, fault_outcomes. simpl. tauto.
Qed.

(** A lookup either is refused by the backend or returns what is stored. *)
Lemma GetVulnerabilityMetadata_cases (id namespace : string) (s : store) :
  (fault_error (default None (head (faults s))) = None ∧
   GetVulnerabilityMetadata id namespace s
   = (stored_metadata id namespace s, set_faults (tail (faults s)) s)) ∨
  (∃ e, fault_error (default None (head (faults s))) = Some e ∧
        GetVulnerabilityMetadata id namespace s
        = (Err e, set_faults (tail (faults s)) s)).
Proof.
  unfold stored_metadata, GetVulnerabilityMetadata, db_Find.
  rewrite !next_fault_eq. simpl.
  destruct (fault_error (default None (head (faults s)))) as [e|]; [eauto|].
  left. split; [done|].
  destruct (filter _ (metadata s)) as [|row [|row' rows]]; simpl; [done| |done].
  by destruct (VulnerabilityMetadataModel_Inflate row).
Qed.

Lemma stored_metadata_rows (id namespace : string) (s : store) :
  stored_metadata id namespace s
  = match filter (metadata_key_is id namespace) (metadata s) with
    | _ :: _ :: _ => Err (ErrMultipleMetadata id namespace)
    | [row] =>
        match VulnerabilityMetadataModel_Inflate row with
        | Err e => Err e
        | Ok m => Ok (Some m)
        end
    | [] => Ok None
    end.
Proof.
  unfold stored_metadata, GetVulnerabilityMetadata, db_Find, next_fault. simpl.
  destruct (filter _ (metadata s)) as [|row [|row' rows]]; simpl; [done| |done].
  by destruct (VulnerabilityMetadataModel_Inflate row).
Qed.

Lemma stored_metadata_Some (id namespace : string) (s : store) m :
  stored_metadata id namespace s = Ok (Some m) ↔
  ∃ row, filter (metadata_key_is id namespace) (metadata s) = [row] ∧
         VulnerabilityMetadataModel_Inflate row = Ok m.
Proof.
  rewrite stored_metadata_rows.
  destruct (filter _ (metadata s)) as [|row [|row' rows]]; split.
  - done.
  - by intros (? & ? & _).
  - destruct (VulnerabilityMetadataModel_Inflate row) eqn:E; [|done].
    intros [= ->]. eauto.
  - intros (row0 & [= <-] & ->). done.
  - done.
  - by intros (? & ? & _).
Qed.

Lemma stored_metadata_None (id namespace : string) (s : store) :
  stored_metadata id namespace s = Ok None ↔
  filter (metadata_key_is id namespace) (metadata s) = [].
Proof.
  rewrite stored_metadata_rows.
  destruct (filter _ (metadata s)) as [|row [|row' rows]]; split; try done.
  by destruct (VulnerabilityMetadataModel_Inflate row).
Qed.

(** The record a lookup finds has the ID and the namespace looked up,
    where they are given. *)
Lemma stored_metadata_key (id namespace : string) (s : store) m :
  stored_metadata id namespace s = Ok (Some m) →
  (id = "" ∨ meta_ID m = id) ∧ (namespace = "" ∨ meta_Namespace m = namespace).
Proof.
  intros (row & Hrows & Hrow)%stored_metadata_Some.
  assert (Hin : row ∈ filter (metadata_key_is id namespace) (metadata s))
    by (rewrite Hrows; apply list_elem_of_here).
  apply list_elem_of_filter in Hin as [[Hid Hns] _].
  rewrite (VulnerabilityMetadataModel_Inflate_ID _ _ Hrow).
  by rewrite (VulnerabilityMetadataModel_Inflate_Namespace _ _ Hrow).
Qed.

Lemma db_write_cases (change : store → Z * store) (s : store) :
  (fault_error (default None (head (faults s))) = None ∧
   db_write change s
   = ({| RowsAffected := (change (set_faults (tail (faults s)) s)).1;
         Error := None |},
      (change (set_faults (tail (faults s)) s)).2)) ∨
  (∃ e, fault_error (default None (head (faults s))) = Some e ∧
        db_write change s
        = ({| RowsAffected := 0; Error := Some e |},
           set_faults (tail (faults s)) s)).
Proof.
  unfold db_write. rewrite next_fault_eq.
  destruct (fault_error (default None (head (faults s)))) as [e|]; [eauto|].
  left. split; [done|]. by destruct (change _).
Qed.

Lemma filter_fmap_stable {A : Type} (P : A → Prop) `{∀ x, Decision (P x)}
    (f : A → A) (l : list A) :
  (∀ x, P (f x) ↔ P x) →
  filter P (f <$> l) = f <$> filter P l.
Proof.
  intros Hf. induction l as [|x l IH]; [done|].
  rewrite fmap_cons. destruct (decide (P x)) as [Hx|Hx].
  - rewrite (filter_cons_True P (f x)) by (by apply Hf).
    rewrite (filter_cons_True P x) by done. by rewrite IH.
  - rewrite (filter_cons_False P (f x)) by (by rewrite Hf).
    by rewrite (filter_cons_False P x).
Qed.

(** A lookup does not tell apart two rows with the same key columns. *)
Lemma metadata_key_is_columns (id namespace : string)
    (r r' : VulnerabilityMetadataModel) :
  VulnerabilityMetadataModel_ID r = VulnerabilityMetadataModel_ID r' →
  VulnerabilityMetadataModel_Namespace r
  = VulnerabilityMetadataModel_Namespace r' →
  metadata_key_is id namespace r ↔ metadata_key_is id namespace r'.
Proof. unfold metadata_key_is. by intros -> ->. Qed.

(** The rows of a primary key are among those a lookup by it selects. *)
Lemma metadata_primary_key_selected (id namespace : string)
    (r : VulnerabilityMetadataModel) :
  metadata_primary_key_is id namespace r → metadata_key_is id namespace r.
Proof. intros [? ?]. split; by right. Qed.

(** With both an ID and a namespace the lookup is by primary key. *)
Lemma metadata_key_is_primary (id namespace : string)
    (r : VulnerabilityMetadataModel) :
  id ≠ "" → namespace ≠ "" →
  metadata_key_is id namespace r ↔ metadata_primary_key_is id namespace r.
Proof.
  intros Hid Hns. split; [|apply metadata_primary_key_selected].
  by intros [[?|?] [?|?]].
Qed.

Lemma filter_lookup_head (id namespace : string)
    (row : VulnerabilityMetadataModel) (l : list VulnerabilityMetadataModel) :
  filter (metadata_key_is id namespace) l = [row] →
  metadata_key_is id namespace row ∧ row ∈ l.
Proof.
  intros Hl.
  assert (Hin : row ∈ filter (metadata_key_is id namespace) l)
    by (rewrite Hl; apply list_elem_of_here).
  by apply list_elem_of_filter in Hin.
Qed.

(** The single row a lookup selects is the single row of its own primary
    key. *)
Lemma filter_primary_key_of_lookup (id namespace : string)
    (row : VulnerabilityMetadataModel) (l : list VulnerabilityMetadataModel) :
  filter (metadata_key_is id namespace) l = [row] →
  filter (metadata_primary_key_is (VulnerabilityMetadataModel_ID row)
                                  (VulnerabilityMetadataModel_Namespace row))
         l = [row].
Proof.
  intros Hl. destruct (filter_lookup_head _ _ _ _ Hl) as [Hrow _].
  transitivity
    (filter (metadata_primary_key_is (VulnerabilityMetadataModel_ID row)
                                     (VulnerabilityMetadataModel_Namespace row))
            (filter (metadata_key_is id namespace) l)).
  - rewrite list_filter_filter. apply list_filter_iff. intros r. split.
    + intros [Hi Hn]. split; [done|].
      by apply (metadata_key_is_columns id namespace r row).
    + by intros [? _].
  - rewrite Hl. by rewrite filter_cons_True.
Qed.

(** Overwriting the rows of a primary key with a row of that key commutes
    with a lookup. *)
Lemma filter_lookup_replace_rows (id' namespace' id namespace : string)
    (new : VulnerabilityMetadataModel) (l : list VulnerabilityMetadataModel) :
  metadata_primary_key_is id namespace new →
  filter (metadata_key_is id' namespace') (replace_rows id namespace new l)
  = replace_rows id namespace new (filter (metadata_key_is id' namespace') l).
Proof.
  intros [Hi Hn]. unfold replace_rows. apply filter_fmap_stable.
  intros r. destruct (decide (metadata_primary_key_is id namespace r))
    as [[Hi' Hn']|_]; [|done].
  apply metadata_key_is_columns; congruence.
Qed.

(** Saving a row over the single row of its primary key. *)
Lemma save_metadata_over (new row : VulnerabilityMetadataModel) (s : store) :
  filter (metadata_primary_key_is (VulnerabilityMetadataModel_ID new)
                                  (VulnerabilityMetadataModel_Namespace new))
         (metadata s) = [row] →
  save_metadata new s
  = (1, set_metadata
          (replace_rows (VulnerabilityMetadataModel_ID new)
                        (VulnerabilityMetadataModel_Namespace new) new
                        (metadata s)) s).
Proof. intros Hrow. unfold save_metadata. by rewrite Hrow. Qed.

(** The save of the merge branch, on the table in which the lookup found
    the single row [row]: the row is overwritten, and the lookup then finds
    the saved row. *)
Lemma save_metadata_merged
    (id namespace : string) (row : VulnerabilityMetadataModel)
    (existing m : VulnerabilityMetadata) (s : store) :
  filter (metadata_key_is id namespace) (metadata s) = [row] →
  VulnerabilityMetadataModel_Inflate row = Ok existing →
  let new := NewVulnerabilityMetadataModel (merged_record existing m) in
  save_metadata new s
  = (1, set_metadata
          (replace_rows (meta_ID existing) (meta_Namespace existing) new
                        (metadata s)) s) ∧
  filter (metadata_key_is id namespace)
         (replace_rows (meta_ID existing) (meta_Namespace existing) new
                       (metadata s)) = [new].
Proof.
  intros Hrows Hrow new.
  assert (Hkid : VulnerabilityMetadataModel_ID new = meta_ID existing)
    by (unfold new; by rewrite VulnerabilityMetadataModel_ID_New).
  assert (Hkns : VulnerabilityMetadataModel_Namespace new
                 = meta_Namespace existing)
    by (unfold new; by rewrite VulnerabilityMetadataModel_Namespace_New).
  pose proof (VulnerabilityMetadataModel_Inflate_ID _ _ Hrow) as Hrid.
  pose proof (VulnerabilityMetadataModel_Inflate_Namespace _ _ Hrow) as Hrns.
  split.
  - rewrite <- Hkid, <- Hkns. apply (save_metadata_over new row).
    rewrite Hkid, Hkns, Hrid, Hrns.
    by apply (filter_primary_key_of_lookup id namespace).
  - rewrite filter_lookup_replace_rows by done. rewrite Hrows.
    unfold replace_rows. simpl. rewrite decide_True; [done|].
    by split.
Qed.

(** The merge branch, when the lookup and the save go through. *)
Lemma AddVulnerabilityMetadata_merge
    (m : VulnerabilityMetadata) (rest : list VulnerabilityMetadata)
    (s : store) (existing : VulnerabilityMetadata) :
  stored_metadata (meta_ID m) (meta_Namespace m) s = Ok (Some existing) →
  meta_Severity existing = meta_Severity m →
  meta_Description existing = meta_Description m →
  calls_go_through 2 s →
  ∃ s', AddVulnerabilityMetadata (m :: rest) s
        = AddVulnerabilityMetadata rest s' ∧
        stored_metadata (meta_ID m) (meta_Namespace m) s'
        = Ok (Some (merged_record existing m)) ∧
        faults s' = drop 2 (faults s).
Proof.
  intros Hst Hsev Hdesc (Hf1 & (Hf2 & _)%calls_go_through_S)%calls_go_through_S.
  cbn [AddVulnerabilityMetadata].
  destruct (GetVulnerabilityMetadata_cases (meta_ID m) (meta_Namespace m) s)
    as [(_ & ->)|(e & He & _)]; [|congruence].
  rewrite Hst. rewrite decide_False by (intros Hn; by apply Hn).
  rewrite decide_False by (intros Hn; by apply Hn).
  set (s1 := set_faults (tail (faults s)) s) in *.
  set (new := NewVulnerabilityMetadataModel (merged_record existing m)).
  apply stored_metadata_Some in Hst as (row & Hrows & Hrow).
  set (s2 := set_faults (tail (faults s1)) s1).
  destruct (save_metadata_merged (meta_ID m) (meta_Namespace m) row existing m
              s2 Hrows Hrow) as [Hsave Hsaved].
  fold new in Hsave, Hsaved.
  change (db_write (save_metadata _) s1) with (db_write (save_metadata new) s1).
  destruct (db_write_cases (save_metadata new) s1)
    as [(_ & ->)|(e & He & _)]; [|simpl in *; congruence].
  fold s2. rewrite Hsave.
  cbv beta iota zeta. cbn [RowsAffected Error fst snd].
  rewrite decide_False by (intros Hne; by apply Hne).
  eexists. split; [reflexivity|]. split.
  - apply stored_metadata_Some. exists new. split.
    + exact Hsaved.
    + apply VulnerabilityMetadataModel_Inflate_New.
  - simpl. by destruct (faults s) as [|? [|? ?]].
Qed.

(** The branch for a new entry, when the lookup and the insert go through. *)
Lemma AddVulnerabilityMetadata_new
    (m : VulnerabilityMetadata) (rest : list VulnerabilityMetadata)
    (s : store) :
  stored_metadata (meta_ID m) (meta_Namespace m) s = Ok None →
  calls_go_through 2 s →
  ∃ s', AddVulnerabilityMetadata (m :: rest) s
        = AddVulnerabilityMetadata rest s' ∧
        stored_metadata (meta_ID m) (meta_Namespace m) s' = Ok (Some m) ∧
        faults s' = drop 2 (faults s).
Proof.
  intros Hst (Hf1 & (Hf2 & _)%calls_go_through_S)%calls_go_through_S.
  cbn [AddVulnerabilityMetadata].
  destruct (GetVulnerabilityMetadata_cases (meta_ID m) (meta_Namespace m) s)
    as [(_ & ->)|(e & He & _)]; [|congruence].
  rewrite Hst.
  set (s1 := set_faults (tail (faults s)) s) in *.
  destruct (db_write_cases
              (create_metadata (NewVulnerabilityMetadataModel m)) s1)
    as [(_ & ->)|(e & He & _)]; [|simpl in *; congruence].
  cbv beta iota zeta. cbn [RowsAffected Error create_metadata fst snd].
  rewrite decide_False by (intros Hne; by apply Hne).
  eexists. split; [reflexivity|]. split.
  - apply stored_metadata_None in Hst.
    apply stored_metadata_Some. exists (NewVulnerabilityMetadataModel m).
    split; [|apply VulnerabilityMetadataModel_Inflate_New].
    simpl. rewrite filter_app, Hst. simpl.
    rewrite filter_cons_True; [done|]. split; right.
    + apply VulnerabilityMetadataModel_ID_New.
    + apply VulnerabilityMetadataModel_Namespace_New.
  - simpl. by destruct (faults s) as [|? [|? ?]].
Qed.

Lemma Cvss_distinct_NoDup (l : list Cvss) : Cvss_distinct l ↔ NoDup l.
Proof.
  rewrite NoDup_alt. unfold Cvss_distinct. split.
  - intros Hd i j x Hi Hj. destruct (decide (i = j)) as [|Hne]; [done|].
    destruct (Hd i j x x Hi Hj Hne). by apply deep_Equal_nil.
  - intros Hn i j a b Hi Hj Hne Heq. apply deep_Equal_nil in Heq. subst b.
    by apply Hne, (Hn i j a).
Qed.

(** C3, as the code has it. Metadata merge union: for an incoming record
    that names an ID and a namespace, when the store holds a record under
    its key, with the same severity and description, and the lookup and
    the save go through, [AddVulnerabilityMetadata] succeeds and the record
    then stored has as Cvss the existing list followed by the incoming
    entries that were not in it, each once and in the order in which they
    are first seen, and as URLs the union of both lists of links, sorted
    and without repetition. *)
Theorem metadata_merge_union (s : store) (existing m : VulnerabilityMetadata) :
  meta_ID m ≠ "" → meta_Namespace m ≠ "" →
  stored_metadata (meta_ID m) (meta_Namespace m) s = Ok (Some existing) →
  meta_Severity existing = meta_Severity m →
  meta_Description existing = meta_Description m →
  calls_go_through 2 s →
  ∃ s' merged,
    AddVulnerabilityMetadata [m] s = (None, s') ∧
    stored_metadata (meta_ID m) (meta_Namespace m) s' = Ok (Some merged) ∧
    meta_Cvss merged
    = meta_Cvss existing
      ++ first_seen (filter (λ c, c ∉ meta_Cvss existing) (meta_Cvss m)) ∧
    Sorted String.le (meta_URLs merged) ∧
    NoDup (meta_URLs merged) ∧
    (∀ u, u ∈ meta_URLs merged ↔ u ∈ meta_URLs existing ∨ u ∈ meta_URLs m) ∧
    meta_Severity merged = meta_Severity existing ∧
    meta_Description merged = meta_Description existing.
Proof.
  intros _ _ Hst Hsev Hdesc Hf.
  destruct (AddVulnerabilityMetadata_merge m [] s existing Hst Hsev Hdesc Hf)
    as (s' & Hadd & Hst' & _).
  exists s', (merged_record existing m). split; [exact Hadd|].
  split; [exact Hst'|]. unfold merged_record. simpl.
  split; [apply merge_Cvss_spec|]. split; [apply Sorted_merge_URLs|].
  split; [apply NoDup_merge_URLs|]. split; [apply elem_of_merge_URLs|done].
Qed.

(** The conflict branch: the first record of a batch disagrees with the
    stored one; nothing is written. *)
Lemma AddVulnerabilityMetadata_conflict (s : store)
    (existing m : VulnerabilityMetadata) (rest : list VulnerabilityMetadata) :
  stored_metadata (meta_ID m) (meta_Namespace m) s = Ok (Some existing) →
  fault_error (default None (head (faults s))) = None →
  meta_Severity existing ≠ meta_Severity m ∨
  meta_Description existing ≠ meta_Description m →
  ∃ e,
    AddVulnerabilityMetadata (m :: rest) s
    = (Some e, set_faults (tail (faults s)) s) ∧
    MetadataConflict e.
Proof.
  intros Hst Hf Hdiff. cbn [AddVulnerabilityMetadata].
  destruct (GetVulnerabilityMetadata_cases (meta_ID m) (meta_Namespace m) s)
    as [(_ & ->)|(e & He & _)]; [|congruence].
  rewrite Hst.
  destruct (decide (meta_Severity existing ≠ meta_Severity m)) as [Hs|Hs].
  - eexists. split; [reflexivity|exact I].
  - destruct (decide (meta_Description existing ≠ meta_Description m))
      as [Hd|Hd].
    + eexists. split; [reflexivity|exact I].
    + destruct Hdiff as [Hdiff|Hdiff]; contradiction.
Qed.


(** What a single successful add leaves under the key of the record. *)
Lemma AddVulnerabilityMetadata_one_inv (m : VulnerabilityMetadata)
    (s0 s1 : store) :
  AddVulnerabilityMetadata [m] s0 = (None, s1) →
  ∃ r1,
    stored_metadata (meta_ID m) (meta_Namespace m) s1 = Ok (Some r1) ∧
    (stored_metadata (meta_ID m) (meta_Namespace m) s0 = Ok None ∧ r1 = m ∨
     ∃ existing,
       stored_metadata (meta_ID m) (meta_Namespace m) s0 = Ok (Some existing) ∧
       meta_Severity existing = meta_Severity m ∧
       meta_Description existing = meta_Description m ∧
       r1 = merged_record existing m).
Proof.
  intros Hadd.
  assert (Hf1 : fault_error (default None (head (faults s0))) = None).
  { cbn [AddVulnerabilityMetadata] in Hadd.
    destruct (GetVulnerabilityMetadata_cases (meta_ID m) (meta_Namespace m) s0)
      as [(? & _)|(e & _ & Hget)]; [done|].
    rewrite Hget in Hadd. done. }
  set (s := set_faults (tail (faults s0)) s0).
  assert (Hf2 : fault_error (default None (head (faults s))) = None).
  { cbn [AddVulnerabilityMetadata] in Hadd.
    destruct (GetVulnerabilityMetadata_cases (meta_ID m) (meta_Namespace m) s0)
      as [(_ & Hget)|(e & He & _)]; [|congruence].
    rewrite Hget in Hadd. fold s in Hadd.
    destruct (stored_metadata (meta_ID m) (meta_Namespace m) s0)
      as [[existing|]|e]; [| |done].
    - repeat case_decide; try done.
      match type of Hadd with context [db_write ?c s] =>
        destruct (db_write_cases c s) as [(? & _)|(e & _ & Hw)]; [done|];
        rewrite Hw in Hadd
      end.
      cbn [RowsAffected] in Hadd. by rewrite decide_True in Hadd.
    - match type of Hadd with context [db_write ?c s] =>
        destruct (db_write_cases c s) as [(? & _)|(e & _ & Hw)]; [done|];
        rewrite Hw in Hadd
      end.
      done. }
  assert (Hf : calls_go_through 2 s0).
  { apply calls_go_through_S. split; [done|].
    apply calls_go_through_S. split; [done|]. reflexivity. }
  destruct (stored_metadata (meta_ID m) (meta_Namespace m) s0)
    as [[existing|]|e] eqn:Hst.
  - destruct (decide (meta_Severity existing = meta_Severity m)) as [Hsev|Hsev];
      [destruct (decide (meta_Description existing = meta_Description m))
         as [Hdesc|Hdesc]|].
    + destruct (AddVulnerabilityMetadata_merge m [] s0 existing Hst Hsev Hdesc Hf)
        as (s' & Hadd' & Hst' & _).
      rewrite Hadd' in Hadd. injection Hadd as <-.
      exists (merged_record existing m). split; [done|]. right. eauto.
    + destruct (AddVulnerabilityMetadata_conflict s0 existing m [])
        as (e & He & _); [done|done|by right|].
      congruence.
    + destruct (AddVulnerabilityMetadata_conflict s0 existing m [])
        as (e & He & _); [done|done|by left|].
      congruence.
  - destruct (AddVulnerabilityMetadata_new m [] s0 Hst Hf)
      as (s' & Hadd' & Hst' & _).
    rewrite Hadd' in Hadd. injection Hadd as <-.
    exists m. split; [done|]. by left.
  - cbn [AddVulnerabilityMetadata] in Hadd.
    destruct (GetVulnerabilityMetadata_cases (meta_ID m) (meta_Namespace m) s0)
      as [(_ & Hget)|(e' & He & _)]; [|congruence].
    rewrite Hget, Hst in Hadd. done.
Qed.

(** C9. The merge keeps the scoring entries distinct: when the record
    found for the incoming record has no two structurally equal Cvss
    entries, the record stored after the merge of the incoming record has
    none either, whatever repeats the incoming list contains, and holds
    the entries of both; and the merge does take place for a record that
    names an ID and a namespace, when severity and description agree and
    the lookup and the save go through. *)
Theorem metadata_merge_keeps_Cvss_distinct (s : store)
    (existing m : VulnerabilityMetadata) :
  stored_metadata (meta_ID m) (meta_Namespace m) s = Ok (Some existing) →
  Cvss_distinct (meta_Cvss existing) →
  (∀ s', AddVulnerabilityMetadata [m] s = (None, s') →
     ∃ merged,
       stored_metadata (meta_ID m) (meta_Namespace m) s' = Ok (Some merged) ∧
       Cvss_distinct (meta_Cvss merged) ∧
       ∀ c, c ∈ meta_Cvss merged ↔ c ∈ meta_Cvss existing ∨ c ∈ meta_Cvss m) ∧
  (meta_ID m ≠ "" → meta_Namespace m ≠ "" →
   meta_Severity existing = meta_Severity m →
   meta_Description existing = meta_Description m →
   calls_go_through 2 s →
   ∃ s', AddVulnerabilityMetadata [m] s = (None, s')).
Proof.
  intros Hst Hd. split.
  - intros s' Hadd.
    destruct (AddVulnerabilityMetadata_one_inv m s s' Hadd)
      as (r1 & Hst' & [[Hnone _]|(ex & Hex & _ & _ & ->)]); [congruence|].
    assert (ex = existing) as -> by congruence.
    exists (merged_record existing m). split; [exact Hst'|].
    unfold merged_record. simpl. split.
    + apply Cvss_distinct_NoDup, merge_Cvss_NoDup.
      by apply Cvss_distinct_NoDup.
    + apply elem_of_merge_Cvss.
  - intros _ _ Hsev Hdesc Hf.
    destruct (AddVulnerabilityMetadata_merge m [] s existing Hst Hsev Hdesc Hf)
      as (s' & Hadd & _).
    by exists s'.
Qed.

(** C2, as the code has it. In a store that holds the result of a single
    successful add of a record, adding the record again, when that
    succeeds, leaves the Cvss of the stored record unchanged; its URLs then
    hold the same links, sorted and without repetition, and are unchanged
    when the single add had left them sorted and without repetition, which
    is the case when the single add was itself a merge: then the whole
    record is unchanged. The second add does succeed for a record that
    names an ID and a namespace, when the lookup and the save go
    through. *)
Theorem metadata_merge_idempotent (m : VulnerabilityMetadata) (s0 s1 : store) :
  AddVulnerabilityMetadata [m] s0 = (None, s1) →
  ∃ r1,
    stored_metadata (meta_ID m) (meta_Namespace m) s1 = Ok (Some r1) ∧
    (∀ s2, AddVulnerabilityMetadata [m] s1 = (None, s2) →
       ∃ r2,
         stored_metadata (meta_ID m) (meta_Namespace m) s2 = Ok (Some r2) ∧
         meta_Cvss r2 = meta_Cvss r1 ∧
         Sorted String.le (meta_URLs r2) ∧
         NoDup (meta_URLs r2) ∧
         (∀ u, u ∈ meta_URLs r2 ↔ u ∈ meta_URLs r1) ∧
         (Sorted String.le (meta_URLs r1) → NoDup (meta_URLs r1) →
          meta_URLs r2 = meta_URLs r1) ∧
         (stored_metadata (meta_ID m) (meta_Namespace m) s0 ≠ Ok None →
          r2 = r1)) ∧
    (meta_ID m ≠ "" → meta_Namespace m ≠ "" → calls_go_through 2 s1 →
     ∃ s2, AddVulnerabilityMetadata [m] s1 = (None, s2)).
Proof.
  intros Hadd.
  destruct (AddVulnerabilityMetadata_one_inv m s0 s1 Hadd) as (r1 & Hst1 & Hr1).
  assert (Hsev : meta_Severity r1 = meta_Severity m).
  { destruct Hr1 as [[_ ->]|(ex & _ & Hs & _ & ->)]; [done|exact Hs]. }
  assert (Hdesc : meta_Description r1 = meta_Description m).
  { destruct Hr1 as [[_ ->]|(ex & _ & _ & Hd & ->)]; [done|exact Hd]. }
  assert (HC : ∀ c, c ∈ meta_Cvss m → c ∈ meta_Cvss r1).
  { destruct Hr1 as [[_ ->]|(ex & _ & _ & _ & ->)]; [done|].
    intros c Hc. unfold merged_record. simpl. apply elem_of_merge_Cvss. tauto. }
  assert (HU : ∀ u, u ∈ meta_URLs m → u ∈ meta_URLs r1).
  { destruct Hr1 as [[_ ->]|(ex & _ & _ & _ & ->)]; [done|].
    intros u Hu. unfold merged_record. simpl. apply elem_of_merge_URLs. tauto. }
  assert (HCeq : merge_Cvss (meta_Cvss r1) (meta_Cvss m) = meta_Cvss r1)
    by (by apply merge_Cvss_absorb).
  exists r1. split; [exact Hst1|]. split.
  - intros s2 Hadd2.
    destruct (AddVulnerabilityMetadata_one_inv m s1 s2 Hadd2)
      as (r2 & Hst2 & [[Hnone _]|(ex & Hex & _ & _ & ->)]); [congruence|].
    assert (ex = r1) as -> by congruence.
    exists (merged_record r1 m). split; [exact Hst2|].
    unfold merged_record at 1 2 3 4. simpl.
    split; [exact HCeq|]. split; [apply Sorted_merge_URLs|].
    split; [apply NoDup_merge_URLs|]. split; [|split].
    + intros u. rewrite elem_of_merge_URLs. split; [|tauto].
      intros [?|?]; auto.
    + intros Hs Hn. by apply merge_URLs_absorb.
    + intros Hsome.
      destruct Hr1 as [[Hnone _]|(ex & _ & _ & _ & Hr1)]; [done|].
      unfold merged_record at 1. rewrite HCeq.
      rewrite merge_URLs_absorb; [by destruct r1| | |exact HU].
      * rewrite Hr1. apply Sorted_merge_URLs.
      * rewrite Hr1. apply NoDup_merge_URLs.
  - intros _ _ Hf.
    destruct (AddVulnerabilityMetadata_merge m [] s1 r1 Hst1 Hsev Hdesc Hf)
      as (s2 & Hadd2 & _).
    by exists s2.
Qed.

End MetadataFacts.

(** ** The metadata properties on concrete tables *)

(** The example of the design document: [A] and "http://x" stored, [B] and
    "http://y" incoming. *)
Lemma metadata_merge_union_witness :
  let s := Sample.holding [Sample.record "High" ["http://x"] [Sample.A]] in
  let m := Sample.record "High" ["http://y"] [Sample.B] in
  ∃ s',
    AddVulnerabilityMetadata [m] s = (None, s') ∧
    stored_metadata "CVE-2020-1" "nvd" s'
    = Ok (Some (Sample.record "High" ["http://x"; "http://y"]
                              [Sample.A; Sample.B])).
Proof.
  intros s m.
  assert (Hid : meta_ID m ≠ "") by discriminate.
  assert (Hns : meta_Namespace m ≠ "") by discriminate.
  destruct (metadata_merge_union s
              (Sample.record "High" ["http://x"] [Sample.A]) m
              Hid Hns eq_refl eq_refl eq_refl eq_refl)
    as (s' & merged & Hadd & _).
  exists s'. split; [exact Hadd|].
  vm_compute in Hadd. injection Hadd as <-. reflexivity.
Defined.


(** [A] stored; [B], [B] again and [A] incoming. *)
Lemma metadata_merge_keeps_Cvss_distinct_witness :
  let s := Sample.holding [Sample.record "High" [] [Sample.A]] in
  let m := Sample.record "High" [] [Sample.B; Sample.B; Sample.A] in
  ∃ s',
    AddVulnerabilityMetadata [m] s = (None, s') ∧
    stored_metadata "CVE-2020-1" "nvd" s'
    = Ok (Some (Sample.record "High" [] [Sample.A; Sample.B])).
Proof.
  intros s m.
  destruct (metadata_merge_keeps_Cvss_distinct s
              (Sample.record "High" [] [Sample.A]) m eq_refl)
    as [Hkept Hmerges].
  - intros [|[|i]] [|[|j]] a b; simpl; intros Ha Hb Hne;
      try discriminate Ha; try discriminate Hb. by destruct Hne.
  - destruct Hmerges as (s' & Hadd);
      [discriminate|discriminate|reflexivity..|].
    destruct (Hkept s' Hadd) as (merged & Hst & _).
    exists s'. split; [exact Hadd|].
    vm_compute in Hadd. injection Hadd as <-. reflexivity.
Defined.

(** A record added twice to an empty store, its links already in order. *)
Lemma metadata_merge_idempotent_witness :
  let m := Sample.record "High" ["http://x"; "http://y"] [Sample.A; Sample.B] in
  let s1 := (AddVulnerabilityMetadata [m] (Sample.holding [])).2 in
  ∃ s2,
    AddVulnerabilityMetadata [m] s1 = (None, s2) ∧
    stored_metadata "CVE-2020-1" "nvd" s1 = Ok (Some m) ∧
    stored_metadata "CVE-2020-1" "nvd" s2 = Ok (Some m).
Proof.
  intros m s1.
  destruct (metadata_merge_idempotent m (Sample.holding []) s1 eq_refl)
    as (r1 & _ & Hkept & Hmerges).
  destruct Hmerges as (s2 & Hadd); [discriminate|discriminate|reflexivity|].
  destruct (Hkept s2 Hadd) as (r2 & _).
  exists s2. split; [exact Hadd|].
  vm_compute in Hadd. injection Hadd as <-. split; reflexivity.
Defined.

(** C2, as stated, fails: a record whose links are not in order and whose
    Cvss list repeats an entry, added twice to an empty store. The single
    add stores it as it is; the second add reorders the links and keeps the
    repeated entry. *)
Lemma metadata_merge_idempotent_counterexample :
  let m := Sample.record "High" ["http://b"; "http://a"] [Sample.A; Sample.A] in
  let s1 := (AddVulnerabilityMetadata [m] (Sample.holding [])).2 in
  let s2 := (AddVulnerabilityMetadata [m] s1).2 in
  stored_metadata "CVE-2020-1" "nvd" s1 = Ok (Some m) ∧
  stored_metadata "CVE-2020-1" "nvd" s2
  = Ok (Some (Sample.record "High" ["http://a"; "http://b"]
                            [Sample.A; Sample.A])) ∧
  ¬ (∃ r1 r2,
       stored_metadata "CVE-2020-1" "nvd" s1 = Ok (Some r1) ∧
       stored_metadata "CVE-2020-1" "nvd" s2 = Ok (Some r2) ∧
       NoDup (meta_Cvss r2) ∧ NoDup (meta_URLs r2) ∧
       meta_Cvss r2 = meta_Cvss r1 ∧ meta_URLs r2 = meta_URLs r1).
Proof.
  intros m s1 s2. split; [reflexivity|]. split; [reflexivity|].
  intros (r1 & r2 & H1 & H2 & _ & _ & _ & HU).
  vm_compute in H1, H2. injection H1 as <-. injection H2 as <-.
  discriminate HU.
Qed.

(** C3, as stated, fails for a record that names no namespace. The lookup
    made for it puts no condition on the namespace column, so in a table
    that holds a record of its ID under no namespace and another under
    "nvd" it selects two rows: the add is refused with the error of the
    lookup and nothing is merged, although a record with the same ID,
    namespace, severity and description is stored. The table is the one
    [AddVulnerabilityMetadata] builds from an empty store. *)
Lemma metadata_merge_union_counterexample :
  let existing := Sample.unnamed "High" ["http://x"] [Sample.A] in
  let other := Sample.record "High" [] [] in
  let m := Sample.unnamed "High" ["http://y"] [Sample.B] in
  let s := (AddVulnerabilityMetadata [existing; other] (Sample.holding [])).2 in
  metadata s = metadata (Sample.holding [existing; other]) ∧
  meta_key existing = meta_key m ∧
  meta_Severity existing = meta_Severity m ∧
  meta_Description existing = meta_Description m ∧
  calls_go_through 2 s ∧
  (AddVulnerabilityMetadata [m] s).1
  = Some (ErrVerifyExisting (ErrMultipleMetadata "CVE-2020-1" "")) ∧
  metadata (AddVulnerabilityMetadata [m] s).2 = metadata s ∧
  ¬ (∃ s' merged,
       AddVulnerabilityMetadata [m] s = (None, s') ∧
       stored_metadata (meta_ID m) (meta_Namespace m) s' = Ok (Some merged) ∧
       meta_Cvss merged = [Sample.A; Sample.B] ∧
       meta_URLs merged = ["http://x"; "http://y"]).
Proof.
  intros existing other m s. repeat (split; [reflexivity|]).
  intros (s' & merged & Hadd & _). vm_compute in Hadd. discriminate Hadd.
Qed.


(** ** The snapshot diff *)

Section DiffFacts.
Context `{Models} {T : Type} `{StoreReader T} {PkgMap : Type}.
Variable buildVulnerabilityPkgsMap : list Vulnerability → PkgMap.
Variable diffVulnerabilities :
  list Vulnerability → list Vulnerability → PkgMap → PkgMap → Manual →
  gmap string Diff * Manual.
Variable diffVulnerabilityMetadata :
  list VulnerabilityMetadata → list VulnerabilityMetadata → PkgMap → PkgMap →
  Manual → gmap string Diff * Manual.

(** After the merge loop a key holds the entry of the metadata stage when
    there is one, and the entry of the vulnerability stage otherwise. *)
Lemma merge_stage_maps_lookup (allDiffsMap metaDiffsMap : gmap string Diff) k :
  merge_stage_maps allDiffsMap metaDiffsMap !! k
  = match metaDiffsMap !! k with
    | Some diff => Some diff
    | None => allDiffsMap !! k
    end.
Proof.
  unfold merge_stage_maps. revert k.
  apply (map_fold_weak_ind
           (λ r m, ∀ k, r !! k = match m !! k with
                                 | Some diff => Some diff
                                 | None => allDiffsMap !! k
                                 end)).
  - intros k. by rewrite lookup_empty.
  - intros i x m r Hi IH k. destruct (decide (i = k)) as [->|Hne].
    + by rewrite !lookup_insert_eq.
    + by rewrite !lookup_insert_ne.
Qed.

Lemma flatten_diffs_values (m : gmap string Diff) :
  flatten_diffs m = reverse (map_to_list m).*2.
Proof.
  unfold flatten_diffs. rewrite map_fold_foldr.
  induction (map_to_list m) as [|[k d] l IH]; simpl; [done|].
  by rewrite IH, reverse_cons.
Qed.

Lemma elem_of_flatten_diffs (m : gmap string Diff) (d : Diff) :
  d ∈ flatten_diffs m ↔ ∃ k, m !! k = Some d.
Proof.
  rewrite flatten_diffs_values, elem_of_reverse, list_elem_of_fmap. split.
  - intros ([k d'] & -> & Hin). exists k. by apply elem_of_map_to_list.
  - intros (k & Hk). exists (k, d). split; [done|].
    by apply elem_of_map_to_list.
Qed.

(** The bindings of one key, in the list of bindings of a map. *)
Lemma map_to_list_at_key (m : gmap string Diff) k d :
  m !! k = Some d →
  filter (λ kd, kd.1 = k) (map_to_list m) = [(k, d)].
Proof.
  intros Hk. apply Permutation_singleton_r, NoDup_Permutation.
  - apply NoDup_filter, NoDup_map_to_list.
  - apply NoDup_singleton.
  - intros [k' d']. rewrite list_elem_of_filter, list_elem_of_singleton,
      elem_of_map_to_list. simpl. split.
    + intros [-> Hk']. congruence.
    + intros [= -> ->]. done.
Qed.

(** C1, as the code has it. When the four reads succeed and both stages
    have an entry under the same key, the changeset [DiffStore] returns
    lists the values of the merged map, in which that key is bound once, to
    the entry of the metadata stage: the entry of the vulnerability stage
    is replaced, with its kind, reasons and packages. When the stage maps
    are keyed by the ID and namespace of their entries, the changeset has
    exactly one entry for the key, the entry of the metadata stage. *)
Theorem DiffStore_metadata_entry_replaces
    (s s1 s2 : store) (targetStore t1 t2 : T)
    (targetVulns baseVulns : list Vulnerability)
    (baseMetadata targetMetadata : list VulnerabilityMetadata)
    (allDiffsMap metaDiffsMap : gmap string Diff) (items1 items2 : Manual)
    (k : string) (dv dm : Diff) :
  reader_GetAllVulnerabilities targetStore = (Ok targetVulns, t1) →
  GetAllVulnerabilities s = (Ok baseVulns, s1) →
  GetAllVulnerabilityMetadata s1 = (Ok baseMetadata, s2) →
  reader_GetAllVulnerabilityMetadata t1 = (Ok targetMetadata, t2) →
  diffVulnerabilities baseVulns targetVulns
    (buildVulnerabilityPkgsMap baseVulns)
    (buildVulnerabilityPkgsMap targetVulns) (trackDiff 7).1.2
  = (allDiffsMap, items1) →
  diffVulnerabilityMetadata baseMetadata targetMetadata
    (buildVulnerabilityPkgsMap baseVulns)
    (buildVulnerabilityPkgsMap targetVulns) items1
  = (metaDiffsMap, items2) →
  allDiffsMap !! k = Some dv →
  metaDiffsMap !! k = Some dm →
  let run :=
    DiffStore buildVulnerabilityPkgsMap diffVulnerabilities
              diffVulnerabilityMetadata s targetStore in
  ∃ merged allDiffs,
    run_diffs run = Some allDiffs ∧
    run_err run = None ∧
    allDiffs ≡ₚ (map_to_list merged).*2 ∧
    filter (λ kd, kd.1 = k) (map_to_list merged) = [(k, dm)] ∧
    (∀ k', metaDiffsMap !! k' = None → merged !! k' = allDiffsMap !! k') ∧
    (∀ key, keyed_by key allDiffsMap → keyed_by key metaDiffsMap →
            filter (λ d, key (diff_ID d) (diff_Namespace d) = k) allDiffs
            = [dm]).
Proof.
  intros Htv Hbv Hbm Htm Hdv Hdm Hv Hm run.
  exists (merge_stage_maps allDiffsMap metaDiffsMap),
         (flatten_diffs (merge_stage_maps allDiffsMap metaDiffsMap)).
  assert (Hk : merge_stage_maps allDiffsMap metaDiffsMap !! k = Some dm)
    by (by rewrite merge_stage_maps_lookup, Hm).
  split; [|split].
  { unfold run, DiffStore. simpl in Hdv. simpl.
    rewrite Htv, Hbv, Hdv, Hbm, Htm, Hdm. done. }
  { unfold run, DiffStore. simpl in Hdv. simpl.
    rewrite Htv, Hbv, Hdv, Hbm, Htm, Hdm. done. }
  split; [by rewrite flatten_diffs_values, reverse_Permutation|].
  split; [by apply map_to_list_at_key|].
  split; [intros k' Hk'; by rewrite merge_stage_maps_lookup, Hk'|].
  intros key Hka Hkm.
  assert (Hkd : keyed_by key (merge_stage_maps allDiffsMap metaDiffsMap)).
  { intros k' d. rewrite merge_stage_maps_lookup.
    destruct (metaDiffsMap !! k') as [d'|] eqn:E.
    - intros [= <-]. by apply Hkm.
    - apply Hka. }
  apply Permutation_singleton_r, NoDup_Permutation.
  - apply NoDup_filter. rewrite flatten_diffs_values, reverse_Permutation.
    apply NoDup_fmap_2_strong; [|apply NoDup_map_to_list].
    intros [k1 d1] [k2 d2] H1%elem_of_map_to_list H2%elem_of_map_to_list.
    simpl. intros <-. f_equal.
    by rewrite <- (Hkd _ _ H1), <- (Hkd _ _ H2).
  - apply NoDup_singleton.
  - intros d. rewrite list_elem_of_filter, list_elem_of_singleton,
      elem_of_flatten_diffs. split.
    + intros [Hd (k' & Hk')]. rewrite (Hkd _ _ Hk') in Hd. subst k'.
      congruence.
    + intros ->. split; [by apply Hkd|eauto].
Qed.

(** C7, as the code has it. [DiffStore] returns the error of the first of
    its four reads that fails, and then no changeset; the counters are
    marked complete on the path that returns a changeset, and the row
    counter is not marked complete on the paths that return an error. *)
Theorem DiffStore_outcome (s : store) (targetStore : T) :
  let run :=
    DiffStore buildVulnerabilityPkgsMap diffVulnerabilities
              diffVulnerabilityMetadata s targetStore in
  run_err run = first_read_failure s targetStore ∧
  match run_err run with
  | None =>
      (∃ allDiffs, run_diffs run = Some allDiffs) ∧
      completed (run_rowsProgress run) = true ∧
      completed (run_diffItems run) = true
  | Some _ =>
      run_diffs run = None ∧
      completed (run_rowsProgress run) = false
  end.
Proof.
  unfold DiffStore, first_read_failure. simpl.
  destruct (reader_GetAllVulnerabilities targetStore) as [[targetVulns|e] t1];
    [|done].
  destruct (GetAllVulnerabilities s) as [[baseVulns|e] s1]; [|done].
  destruct (diffVulnerabilities _ _ _ _ _) as [allDiffsMap items1].
  destruct (GetAllVulnerabilityMetadata s1) as [[baseMetadata|e] s2]; [|done].
  destruct (reader_GetAllVulnerabilityMetadata t1) as [[targetMetadata|e] t2];
    [|done].
  destruct (diffVulnerabilityMetadata _ _ _ _ _) as [metaDiffsMap items2].
  simpl. eauto.
Qed.

End DiffFacts.

(** Both stages report the key of CVE-2020-1 in namespace nvd. *)
Lemma DiffStore_metadata_entry_replaces_witness :
  let run := SampleDiff.run (Sample.holding []) (Sample.holding []) in
  ∃ allDiffs,
    run_diffs run = Some allDiffs ∧
    filter (λ d, SampleDiff.key (diff_ID d) (diff_Namespace d)
                 = SampleDiff.key "CVE-2020-1" "nvd") allDiffs
    = [SampleDiff.metadata_entry].
Proof.
  intros run.
  destruct (@DiffStore_metadata_entry_replaces
              Plain.models store store_StoreReader unit
              SampleDiff.buildVulnerabilityPkgsMap
              SampleDiff.diffVulnerabilities
              SampleDiff.diffVulnerabilityMetadata
              (Sample.holding []) (Sample.holding []) (Sample.holding [])
              (Sample.holding []) (Sample.holding []) (Sample.holding [])
              [] [] [] []
              SampleDiff.allDiffsMap SampleDiff.metaDiffsMap
              (Increment (Increment (trackDiff 7).1.2))
              (Increment (Increment (Increment (trackDiff 7).1.2)))
              (SampleDiff.key "CVE-2020-1" "nvd")
              SampleDiff.vulnerability_entry SampleDiff.metadata_entry
              eq_refl eq_refl eq_refl eq_refl eq_refl eq_refl)
    as (merged & allDiffs & Hrun & _ & _ & _ & _ & Hone).
  - vm_compute. reflexivity.
  - vm_compute. reflexivity.
  - exists allDiffs. split; [exact Hrun|]. apply Hone.
    + intros k d. unfold SampleDiff.allDiffsMap.
      intros [[<- <-]|[_ [<- <-]%lookup_singleton_Some]]%lookup_insert_Some;
        reflexivity.
    + intros k d. unfold SampleDiff.metaDiffsMap.
      intros [<- <-]%lookup_singleton_Some. reflexivity.
Defined.

(** C1, as stated, fails: the vulnerability stage reports the key as
    removed, the metadata stage reports a changed description. The
    changeset holds the entry of the metadata stage for the key, and no
    entry of the changeset carries the reason of the vulnerability stage. *)
Lemma DiffStore_reasons_added_counterexample :
  let run := SampleDiff.run (Sample.holding []) (Sample.holding []) in
  SampleDiff.allDiffsMap !! SampleDiff.key "CVE-2020-1" "nvd"
  = Some SampleDiff.vulnerability_entry ∧
  SampleDiff.metaDiffsMap !! SampleDiff.key "CVE-2020-1" "nvd"
  = Some SampleDiff.metadata_entry ∧
  (∃ allDiffs, run_diffs run = Some allDiffs ∧
               allDiffs ≡ₚ [SampleDiff.metadata_entry; SampleDiff.other_entry]) ∧
  ¬ (∃ allDiffs d,
       run_diffs run = Some allDiffs ∧ d ∈ allDiffs ∧
       diff_ID d = "CVE-2020-1" ∧ diff_Namespace d = "nvd" ∧
       ∀ reason, reason ∈ diff_Reasons SampleDiff.vulnerability_entry →
                 reason ∈ diff_Reasons d).
Proof.
  intros run.
  assert (Hrun : run_diffs run
                 = Some [SampleDiff.metadata_entry; SampleDiff.other_entry]
                 ∨ run_diffs run
                   = Some [SampleDiff.other_entry; SampleDiff.metadata_entry]).
  { vm_compute. auto. }
  split; [vm_compute; reflexivity|]. split; [vm_compute; reflexivity|]. split.
  - destruct Hrun as [->| ->]; eexists; (split; [reflexivity|]).
    + done.
    + apply Permutation_swap.
  - intros (allDiffs & d & Hd & Hin & Hid & _ & Hreasons).
    clearbody run.
    assert (Hcs : allDiffs = [SampleDiff.metadata_entry; SampleDiff.other_entry]
                  ∨ allDiffs = [SampleDiff.other_entry; SampleDiff.metadata_entry]).
    { destruct Hrun as [Hr|Hr]; rewrite Hr in Hd; injection Hd as <-; auto. }
    assert (Hd' : d = SampleDiff.metadata_entry ∨ d = SampleDiff.other_entry).
    { destruct Hcs as [-> | ->];
        apply elem_of_cons in Hin as [->|Hin]; auto;
        apply list_elem_of_singleton in Hin; auto. }
    destruct Hd' as [-> | ->]; [|discriminate Hid].
    assert (Hr : "vulnerability removed"
                 ∈ diff_Reasons SampleDiff.metadata_entry).
    { apply Hreasons. apply list_elem_of_here. }
    simpl in Hr. apply list_elem_of_singleton in Hr. discriminate Hr.
Qed.

(** C7, as stated, fails: the first read, of the vulnerabilities of the
    target, is refused by the backend. [DiffStore] returns that error and
    neither counter is marked complete. *)
Lemma DiffStore_counters_complete_counterexample :
  let targetStore := Plain.open_store [] [] [] [] [Some "disk I/O error"] in
  let run := SampleDiff.run (Sample.holding []) targetStore in
  run_err run = Some (ErrBackend "disk I/O error") ∧
  run_diffs run = None ∧
  completed (run_rowsProgress run) = false ∧
  completed (run_diffItems run) = false ∧
  ¬ (completed (run_rowsProgress run) = true ∧
     completed (run_diffItems run) = true).
Proof.
  intros targetStore run. repeat split; try reflexivity.
  intros [Hrows _]. vm_compute in Hrows. discriminate Hrows.
Qed.

(** * Further properties *)

(** ** The vulnerability table *)

Section VulnerabilityFacts.
Context `{RowModels}.

Lemma calls_before_fault_nil (n : nat) : calls_before_fault n [] = n.
Proof. by destruct n. Qed.

Lemma calls_before_fault_le (n : nat) (script : list (option string)) :
  (calls_before_fault n script ≤ n)%nat.
Proof.
  revert script. induction n as [|n IH]; intros script; simpl; [done|].
  destruct script as [|[msg|] script]; [lia|lia|]. specialize (IH script). lia.
Qed.

Lemma calls_before_fault_all (n : nat) (s : store) :
  calls_go_through n s ↔ calls_before_fault n (faults s) = n.
Proof.
  revert s. induction n as [|n IH]; intros s; [done|].
  rewrite calls_go_through_S, IH. cbn [faults set_faults calls_before_fault].
  destruct (faults s) as [|[msg|] fs]; simpl.
  - rewrite calls_before_fault_nil. tauto.
  - split; [by intros [? _]|lia].
  - split; [intros [_ ->]; done|]. intros [= ->]. done.
Qed.

Lemma inflate_all_app {M A : Type} (inflate : M → result A) (l1 l2 : list M) :
  inflate_all inflate (l1 ++ l2)
  = match inflate_all inflate l1 with
    | Err e => Err e
    | Ok a =>
        match inflate_all inflate l2 with
        | Err e => Err e
        | Ok b => Ok (a ++ b)
        end
    end.
Proof.
  induction l1 as [|m l1 IH]; simpl.
  - by destruct (inflate_all inflate l2).
  - destruct (inflate m); [|done]. rewrite IH.
    destruct (inflate_all inflate l1); [|done].
    by destruct (inflate_all inflate l2).
Qed.

Lemma inflate_all_New (vulns : list Vulnerability) :
  inflate_all VulnerabilityModel_Inflate (NewVulnerabilityModel <$> vulns)
  = Ok vulns.
Proof.
  induction vulns as [|v vulns IH]; [done|].
  rewrite fmap_cons. cbn [inflate_all].
  by rewrite VulnerabilityModel_Inflate_New, IH.
Qed.

(** Rows that inflate are selected like the values they inflate to. *)
Lemma inflate_all_filter (P : VulnerabilityModel → Prop) (Q : Vulnerability → Prop)
    `{∀ m, Decision (P m)} `{∀ v, Decision (Q v)}
    (rows : list VulnerabilityModel) (l : list Vulnerability) :
  (∀ m v, VulnerabilityModel_Inflate m = Ok v → (P m ↔ Q v)) →
  inflate_all VulnerabilityModel_Inflate rows = Ok l →
  inflate_all VulnerabilityModel_Inflate (filter P rows) = Ok (filter Q l).
Proof.
  intros HPQ. revert l. induction rows as [|m rows IH]; intros l; simpl.
  - by intros [= <-].
  - destruct (VulnerabilityModel_Inflate m) as [v|e] eqn:Em; [|done].
    destruct (inflate_all VulnerabilityModel_Inflate rows) as [l'|e] eqn:El;
      [|done].
    intros [= <-]. specialize (IH l' eq_refl).
    destruct (decide (P m)) as [Hm|Hm].
    + rewrite filter_cons_True by done.
      rewrite (filter_cons_True Q) by (by apply (HPQ m v Em)).
      simpl. by rewrite Em, IH.
    + rewrite filter_cons_False by done.
      rewrite (filter_cons_False Q) by (by rewrite <- (HPQ m v Em)).
      done.
Qed.

Lemma inflate_all_Forall (Q : Vulnerability → Prop)
    (rows : list VulnerabilityModel) (l : list Vulnerability) :
  (∀ m v, m ∈ rows → VulnerabilityModel_Inflate m = Ok v → Q v) →
  inflate_all VulnerabilityModel_Inflate rows = Ok l →
  Forall Q l.
Proof.
  revert l. induction rows as [|m rows IH]; intros l HQ; simpl.
  - intros [= <-]. constructor.
  - destruct (VulnerabilityModel_Inflate m) as [v|e] eqn:Em; [|done].
    destruct (inflate_all VulnerabilityModel_Inflate rows) as [l'|e] eqn:El;
      [|done].
    intros [= <-]. constructor.
    + apply (HQ m v); [apply list_elem_of_here|done].
    + apply IH; [|done]. intros m' v' Hin. apply HQ.
      by apply list_elem_of_further.
Qed.

(** What a batch of inserts leaves behind, whatever the backend does. *)
Lemma AddVulnerability_spec (vulns : list Vulnerability) (s : store) :
  let '(err, s') := AddVulnerability vulns s in
  let n := calls_before_fault (length vulns) (faults s) in
  vulnerabilities s'
  = vulnerabilities s ++ (NewVulnerabilityModel <$> take n vulns) ∧
  (err = None ↔ n = length vulns) ∧
  (∀ e, err = Some e →
        ∃ msg, faults s !! n = Some (Some msg) ∧
               e = ErrCreate (ErrBackend msg)) ∧
  ids s' = ids s ∧ metadata s' = metadata s ∧ exclusions s' = exclusions s.
Proof.
  revert s. induction vulns as [|v vulns IH]; intros s.
  - simpl. rewrite app_nil_r. repeat split; done.
  - cbn [AddVulnerability length]. unfold db_write, next_fault.
    destruct (faults s) as [|[msg|] fs] eqn:Efs.
    + cbn [RowsAffected Error]. rewrite decide_False by (intros Hn; by apply Hn).
      match goal with |- context [AddVulnerability vulns ?s1] =>
        specialize (IH s1); destruct (AddVulnerability vulns s1) as [err s']
      end.
      cbn [faults set_vulnerabilities] in IH. rewrite Efs in IH.
      rewrite calls_before_fault_nil in IH. cbn [calls_before_fault].
      destruct IH as (Hv & Herr & He & Hi & Hm & Hx).
      rewrite firstn_all in Hv.
      split; [|split; [|split; [|done]]].
      * rewrite Hv. simpl. rewrite <- app_assoc. simpl.
        by rewrite firstn_all.
      * split; [done|]. intros _. by apply Herr.
      * intros e ->. destruct (He e eq_refl) as (msg & Hmsg & _).
        by rewrite lookup_nil in Hmsg.
    + cbn [fault_error fmap option_fmap option_map RowsAffected Error].
      cbn [calls_before_fault]. simpl. rewrite app_nil_r.
      split; [done|]. split; [done|]. split; [|done].
      intros e [= <-]. eauto.
    + cbn [fault_error fmap option_fmap option_map RowsAffected Error].
      rewrite decide_False by (intros Hn; by apply Hn).
      match goal with |- context [AddVulnerability vulns ?s1] =>
        specialize (IH s1); destruct (AddVulnerability vulns s1) as [err s']
      end.
      cbn [faults set_vulnerabilities set_faults vulnerabilities] in IH.
      cbn [calls_before_fault].
      destruct IH as (Hv & Herr & He & Hi & Hm & Hx).
      split; [|split; [|split; [|done]]].
      * rewrite Hv. simpl. by rewrite <- app_assoc.
      * rewrite Herr. split; [by intros ->|by intros [= ->]].
      * intros e ->. destruct (He e eq_refl) as (msg & Hmsg & ->). eauto.
Qed.

Lemma calls_before_fault_at (k n : nat) (script : list (option string)) msg :
  calls_before_fault k script = k →
  script !! k = Some (Some msg) →
  (k < n)%nat →
  calls_before_fault n script = k.
Proof.
  revert n script. induction k as [|k IH]; intros n script Hk Hat Hlt.
  - destruct n as [|n]; [lia|]. destruct script as [|[m|] script]; try done.
  - destruct n as [|n]; [lia|]. destruct script as [|[m|] script]; try done.
    simpl in *. f_equal. apply IH; [lia|done|lia].
Qed.

Lemma AddVulnerability_ok (vulns : list Vulnerability) (s : store) :
  calls_go_through (length vulns) s →
  ∃ s', AddVulnerability vulns s = (None, s') ∧
        vulnerabilities s'
        = vulnerabilities s ++ (NewVulnerabilityModel <$> vulns) ∧
        ids s' = ids s ∧ metadata s' = metadata s ∧
        exclusions s' = exclusions s.
Proof.
  intros Hf%calls_before_fault_all.
  pose proof (AddVulnerability_spec vulns s) as Hs.
  destruct (AddVulnerability vulns s) as [err s']. cbv zeta in Hs.
  rewrite Hf, firstn_all in Hs. destruct Hs as (Hv & Herr & _ & Hi & Hm & Hx).
  exists s'. rewrite (proj2 Herr eq_refl). done.
Qed.

Lemma SearchForVulnerabilities_undisturbed (namespace packageName : string)
    (s : store) :
  (SearchForVulnerabilities namespace packageName (undisturbed s)).1
  = match inflate_all VulnerabilityModel_Inflate
            (filter (λ m, VulnerabilityModel_Namespace m = namespace ∧
                          VulnerabilityModel_PackageName m = packageName)
                    (vulnerabilities s)) with
    | Err e => ([], Some e)
    | Ok l => (l, None)
    end.
Proof.
  unfold SearchForVulnerabilities, undisturbed, db_Find, next_fault. simpl.
  by destruct (inflate_all _ _).
Qed.

Lemma GetVulnerability_undisturbed (namespace id : string) (s : store) :
  (GetVulnerability namespace id (undisturbed s)).1
  = match inflate_all VulnerabilityModel_Inflate
            (if decide (namespace ≠ "")
             then filter (λ m, VulnerabilityModel_Namespace m = namespace)
                    (filter (λ m, VulnerabilityModel_ID m = id)
                            (vulnerabilities s))
             else filter (λ m, VulnerabilityModel_ID m = id)
                         (vulnerabilities s)) with
    | Err e => ([], Some e)
    | Ok l => (l, None)
    end.
Proof.
  unfold GetVulnerability, undisturbed, db_Find, next_fault. simpl.
  by destruct (inflate_all _ _).
Qed.

Lemma GetAllVulnerabilities_undisturbed (s : store) :
  (GetAllVulnerabilities (undisturbed s)).1
  = inflate_all VulnerabilityModel_Inflate (vulnerabilities s).
Proof. done. Qed.

Lemma NewVulnerabilityModel_columns (v : Vulnerability) :
  VulnerabilityModel_ID (NewVulnerabilityModel v) = vuln_ID v ∧
  VulnerabilityModel_Namespace (NewVulnerabilityModel v) = vuln_Namespace v ∧
  VulnerabilityModel_PackageName (NewVulnerabilityModel v) = vuln_PackageName v.
Proof.
  pose proof (VulnerabilityModel_Inflate_New v) as Hv.
  rewrite (VulnerabilityModel_Inflate_ID _ _ Hv).
  rewrite (VulnerabilityModel_Inflate_Namespace _ _ Hv).
  by rewrite (VulnerabilityModel_Inflate_PackageName _ _ Hv).
Qed.

(** X1. The batch is not atomic: when the insert of one record is refused
    by the backend, [AddVulnerability] returns that error, the records
    before it in the batch stay in the table, and neither the refused
    record nor those after it are inserted. *)
Theorem AddVulnerability_keeps_earlier_rows
    (before after : list Vulnerability) (v : Vulnerability) (msg : string)
    (s : store) :
  calls_go_through (length before) s →
  faults s !! length before = Some (Some msg) →
  ∃ s',
    AddVulnerability (before ++ v :: after) s
    = (Some (ErrCreate (ErrBackend msg)), s') ∧
    vulnerabilities s'
    = vulnerabilities s ++ (NewVulnerabilityModel <$> before) ∧
    ids s' = ids s ∧ metadata s' = metadata s ∧ exclusions s' = exclusions s.
Proof.
  intros Hf%calls_before_fault_all Hat.
  pose proof (AddVulnerability_spec (before ++ v :: after) s) as Hs.
  destruct (AddVulnerability (before ++ v :: after) s) as [err s'].
  cbv zeta in Hs.
  rewrite (calls_before_fault_at (length before) _ _ msg Hf Hat) in Hs
    by (rewrite length_app; simpl; lia).
  rewrite take_app_length in Hs.
  destruct Hs as (Hv & Herr & He & Hi & Hm & Hx).
  exists s'. split; [|done]. f_equal.
  destruct err as [e|].
  - destruct (He e eq_refl) as (msg' & Hmsg & ->). congruence.
  - pose proof (proj1 Herr eq_refl) as Hlen.
    rewrite length_app in Hlen. simpl in Hlen. lia.
Qed.

(** X2. Search finds what was added: after a batch of inserts that all go
    through, a search by namespace and package returns what it returned
    before, followed by the records of the batch with that namespace and
    package, in batch order. *)
Theorem SearchForVulnerabilities_after_AddVulnerability
    (vulns found : list Vulnerability) (namespace packageName : string)
    (s : store) :
  (SearchForVulnerabilities namespace packageName (undisturbed s)).1
  = (found, None) →
  calls_go_through (length vulns) s →
  ∃ s',
    AddVulnerability vulns s = (None, s') ∧
    (SearchForVulnerabilities namespace packageName (undisturbed s')).1
    = (found ++ filter (λ v, vuln_Namespace v = namespace ∧
                             vuln_PackageName v = packageName) vulns,
       None).
Proof.
  intros Hfound Hf.
  destruct (AddVulnerability_ok vulns s Hf) as (s' & Hadd & Hv & _).
  exists s'. split; [exact Hadd|].
  rewrite SearchForVulnerabilities_undisturbed in *.
  rewrite Hv, filter_app, inflate_all_app.
  destruct (inflate_all _ (filter _ (vulnerabilities s))) as [l|e]; [|done].
  injection Hfound as ->.
  rewrite (inflate_all_filter _
             (λ v, vuln_Namespace v = namespace ∧
                   vuln_PackageName v = packageName)
             (NewVulnerabilityModel <$> vulns) vulns).
  - done.
  - intros m v Hm.
    rewrite (VulnerabilityModel_Inflate_Namespace _ _ Hm).
    by rewrite (VulnerabilityModel_Inflate_PackageName _ _ Hm).
  - apply inflate_all_New.
Qed.

(** X3. The namespace argument of [GetVulnerability] only narrows the
    answer: every record returned has the id asked for; and when the lookup
    without a namespace returns a list, the lookup with a namespace returns
    the records of that list that are in the namespace, in the same order. *)
Theorem GetVulnerability_namespace_narrows
    (namespace id : string) (all : list Vulnerability) (s : store) :
  (GetVulnerability "" id (undisturbed s)).1 = (all, None) →
  Forall (λ v, vuln_ID v = id) all ∧
  (namespace ≠ "" →
   (GetVulnerability namespace id (undisturbed s)).1
   = (filter (λ v, vuln_Namespace v = namespace) all, None)).
Proof.
  rewrite !GetVulnerability_undisturbed.
  rewrite decide_False by (intros Hn; by apply Hn).
  destruct (inflate_all _ (filter _ (vulnerabilities s))) as [l|e] eqn:El;
    [|done].
  intros [= ->]. split.
  - eapply inflate_all_Forall; [|exact El]. intros m v Hin Hm. cbv beta.
    apply list_elem_of_filter in Hin as [Hid _].
    by rewrite (VulnerabilityModel_Inflate_ID _ _ Hm).
  - intros Hns. rewrite decide_True by done.
    rewrite (inflate_all_filter _ (λ v, vuln_Namespace v = namespace) _ all).
    + done.
    + intros m v Hm. by rewrite (VulnerabilityModel_Inflate_Namespace _ _ Hm).
    + done.
Qed.

(** X4. A full read returns the table in insertion order: after a batch of
    inserts that all go through, [GetAllVulnerabilities] returns what it
    returned before followed by the batch. *)
Theorem GetAllVulnerabilities_after_AddVulnerability
    (vulns old : list Vulnerability) (s : store) :
  (GetAllVulnerabilities (undisturbed s)).1 = Ok old →
  calls_go_through (length vulns) s →
  ∃ s',
    AddVulnerability vulns s = (None, s') ∧
    (GetAllVulnerabilities (undisturbed s')).1 = Ok (old ++ vulns).
Proof.
  intros Hold Hf.
  destruct (AddVulnerability_ok vulns s Hf) as (s' & Hadd & Hv & _).
  exists s'. split; [exact Hadd|].
  rewrite GetAllVulnerabilities_undisturbed in *.
  by rewrite Hv, inflate_all_app, Hold, inflate_all_New.
Qed.

End VulnerabilityFacts.

(** The second of three inserts is refused: the first row stays. *)
Lemma AddVulnerability_keeps_earlier_rows_witness :
  let v1 := PlainRows.vuln "CVE-1" "nvd" "curl" "< 2.0" in
  let v2 := PlainRows.vuln "CVE-2" "nvd" "zlib" "< 1.3" in
  let v3 := PlainRows.vuln "CVE-3" "nvd" "bash" "< 5.0" in
  let s := Plain.open_store [] [] [] [] [None; Some "disk full"] in
  ∃ s',
    AddVulnerability ([v1] ++ v2 :: [v3]) s
    = (Some (ErrCreate (ErrBackend "disk full")), s') ∧
    vulnerabilities s' = [v1].
Proof.
  intros v1 v2 v3 s.
  destruct (@AddVulnerability_keeps_earlier_rows Plain.models PlainRows.rows
              [v1] [v3] v2 "disk full" s eq_refl eq_refl)
    as (s' & Hadd & Hv & _).
  exists s'. split; [exact Hadd|exact Hv].
Defined.

(** One record added to an empty store and searched for. *)
Lemma SearchForVulnerabilities_after_AddVulnerability_witness :
  let v := PlainRows.vuln "CVE-1" "github:language:idris" "my-package" "< 2.0" in
  ∃ s',
    AddVulnerability [v] (Sample.holding []) = (None, s') ∧
    (SearchForVulnerabilities "github:language:idris" "my-package"
       (undisturbed s')).1 = ([v], None) ∧
    (SearchForVulnerabilities "github:language:idris" "other-package"
       (undisturbed s')).1 = ([], None).
Proof.
  intros v.
  destruct (@SearchForVulnerabilities_after_AddVulnerability
              Plain.models PlainRows.rows [v] []
              "github:language:idris" "my-package" (Sample.holding [])
              eq_refl eq_refl)
    as (s' & Hadd & Hsearch).
  exists s'. split; [exact Hadd|]. split; [exact Hsearch|].
  vm_compute in Hadd. injection Hadd as <-. reflexivity.
Defined.

(** The same id in two namespaces. *)
Lemma GetVulnerability_namespace_narrows_witness :
  let v1 := PlainRows.vuln "CVE-1" "debian:10" "curl" "< 2.0" in
  let v2 := PlainRows.vuln "CVE-1" "nvd" "curl" "< 2.1" in
  let v3 := PlainRows.vuln "CVE-2" "nvd" "curl" "< 2.2" in
  let s := Plain.open_store [] [v1; v2; v3] [] [] [] in
  (GetVulnerability "nvd" "CVE-1" (undisturbed s)).1 = ([v2], None).
Proof.
  intros v1 v2 v3 s.
  destruct (@GetVulnerability_namespace_narrows Plain.models PlainRows.rows
              "nvd" "CVE-1" [v1; v2] s eq_refl) as [_ Hns].
  rewrite Hns by discriminate. reflexivity.
Defined.

(** Two records added to a store that held one. *)
Lemma GetAllVulnerabilities_after_AddVulnerability_witness :
  let v1 := PlainRows.vuln "CVE-1" "nvd" "curl" "< 2.0" in
  let v2 := PlainRows.vuln "CVE-2" "nvd" "zlib" "< 1.3" in
  let v3 := PlainRows.vuln "CVE-3" "nvd" "bash" "< 5.0" in
  let s := Plain.open_store [] [v1] [] [] [] in
  ∃ s',
    AddVulnerability [v2; v3] s = (None, s') ∧
    (GetAllVulnerabilities (undisturbed s')).1 = Ok [v1; v2; v3].
Proof.
  intros v1 v2 v3 s.
  exact (@GetAllVulnerabilities_after_AddVulnerability
           Plain.models PlainRows.rows [v2; v3] [v1] s eq_refl eq_refl).
Defined.

(** ** Batches of metadata *)

Section BatchFacts.
Context `{Models}.

Lemma row_key_is (id namespace : string) (r : VulnerabilityMetadataModel) :
  metadata_primary_key_is id namespace r ↔ row_key r = (id, namespace).
Proof.
  unfold metadata_primary_key_is, row_key.
  split; [by intros [-> ->]|by intros [= -> ->]].
Qed.

Lemma row_key_Inflate (row : VulnerabilityMetadataModel)
    (m : VulnerabilityMetadata) :
  VulnerabilityMetadataModel_Inflate row = Ok m → meta_key m = row_key row.
Proof.
  intros Hrow. unfold meta_key, row_key.
  by rewrite (VulnerabilityMetadataModel_Inflate_ID _ _ Hrow),
    (VulnerabilityMetadataModel_Inflate_Namespace _ _ Hrow).
Qed.

Lemma row_key_merged (existing m : VulnerabilityMetadata) :
  row_key (NewVulnerabilityMetadataModel (merged_record existing m))
  = meta_key existing.
Proof.
  unfold row_key, meta_key.
  by rewrite VulnerabilityMetadataModel_ID_New,
    VulnerabilityMetadataModel_Namespace_New.
Qed.

(** A lookup selects a row when it selects the key of the row. *)
Lemma metadata_key_is_selects (m : VulnerabilityMetadata)
    (r : VulnerabilityMetadataModel) :
  metadata_key_is (meta_ID m) (meta_Namespace m) r ↔ selects m (row_key r).
Proof.
  unfold metadata_key_is, selects, row_key. simpl.
  split; intros [[?|?] [?|?]]; split; auto.
Qed.

Lemma row_key_New (m : VulnerabilityMetadata) :
  row_key (NewVulnerabilityMetadataModel m) = meta_key m.
Proof.
  unfold row_key, meta_key.
  by rewrite VulnerabilityMetadataModel_ID_New,
    VulnerabilityMetadataModel_Namespace_New.
Qed.

(** One record of a batch: the call stops with an error and leaves the
    table alone, or goes on after the insert of a new row, or goes on after
    the rows of the key have been overwritten with the merged record. *)
Lemma AddVulnerabilityMetadata_step
    (m : VulnerabilityMetadata) (rest : list VulnerabilityMetadata) (s : store) :
  ∃ s1,
    ids s1 = ids s ∧ vulnerabilities s1 = vulnerabilities s ∧
    exclusions s1 = exclusions s ∧
    ((∃ e, AddVulnerabilityMetadata (m :: rest) s = (Some e, s1)) ∧
     metadata s1 = metadata s
     ∨
     AddVulnerabilityMetadata (m :: rest) s = AddVulnerabilityMetadata rest s1 ∧
     stored_metadata (meta_ID m) (meta_Namespace m) s = Ok None ∧
     metadata s1 = metadata s ++ [NewVulnerabilityMetadataModel m]
     ∨
     ∃ existing,
       AddVulnerabilityMetadata (m :: rest) s
       = AddVulnerabilityMetadata rest s1 ∧
       stored_metadata (meta_ID m) (meta_Namespace m) s = Ok (Some existing) ∧
       meta_Severity existing = meta_Severity m ∧
       meta_Description existing = meta_Description m ∧
       metadata s1
       = replace_rows (meta_ID existing) (meta_Namespace existing)
           (NewVulnerabilityMetadataModel (merged_record existing m))
           (metadata s)).
Proof.
  cbn [AddVulnerabilityMetadata].
  set (s1 := set_faults (tail (faults s)) s).
  destruct (GetVulnerabilityMetadata_cases (meta_ID m) (meta_Namespace m) s)
    as [(_ & ->)|(e & _ & ->)];
    [|exists s1; do 3 (split; [reflexivity|]); left; eauto].
  fold s1. set (s2 := set_faults (tail (faults s1)) s1).
  destruct (stored_metadata (meta_ID m) (meta_Namespace m) s)
    as [[existing|]|e] eqn:Hst;
    [| |exists s1; do 3 (split; [reflexivity|]); left; eauto].
  - destruct (decide (meta_Severity existing ≠ meta_Severity m)) as [Hs|Hs];
      [exists s1; do 3 (split; [reflexivity|]); left; eauto|].
    destruct (decide (meta_Description existing ≠ meta_Description m))
      as [Hd|Hd];
      [exists s1; do 3 (split; [reflexivity|]); left; eauto|].
    apply dec_stable in Hs. apply dec_stable in Hd.
    set (new := NewVulnerabilityMetadataModel (merged_record existing m)).
    change (db_write (save_metadata _) s1)
      with (db_write (save_metadata new) s1).
    pose proof Hst as (row & Hrows & Hrow)%stored_metadata_Some.
    destruct (db_write_cases (save_metadata new) s1)
      as [(_ & ->)|(e & _ & ->)].
    + fold s2. cbv beta iota zeta. cbn [RowsAffected Error].
      destruct (save_metadata_merged (meta_ID m) (meta_Namespace m) row
                  existing m s2 Hrows Hrow) as [Hsave _].
      fold new in Hsave. rewrite Hsave. cbn [fst snd].
      rewrite decide_False by (intros Hne; by apply Hne).
      exists (set_metadata
                (replace_rows (meta_ID existing) (meta_Namespace existing) new
                              (metadata s2))
                s2).
      do 3 (split; [reflexivity|]). right. right.
      exists existing. done.
    + fold s2. cbv beta iota zeta. cbn [RowsAffected Error].
      rewrite decide_True by done.
      exists s2. do 3 (split; [reflexivity|]). left. eauto.
  - destruct (db_write_cases
                (create_metadata (NewVulnerabilityMetadataModel m)) s1)
      as [(_ & ->)|(e & _ & ->)].
    + fold s2. cbv beta iota zeta.
      cbn [RowsAffected Error create_metadata fst snd].
      rewrite decide_False by (intros Hne; by apply Hne).
      exists (set_metadata
                (metadata s2 ++ [NewVulnerabilityMetadataModel m]) s2).
      do 3 (split; [reflexivity|]). right. left. done.
    + fold s2. cbv beta iota zeta. cbn [RowsAffected Error].
      exists s2. do 3 (split; [reflexivity|]). left. eauto.
Qed.

(** A property of the metadata table that the insert of a record of the
    batch under a free key and the overwrite of a key with a merged record
    both keep is kept by the whole batch, however far it gets. *)
Lemma AddVulnerabilityMetadata_preserves
    (I : list VulnerabilityMetadataModel → Prop)
    (batch : list VulnerabilityMetadata) (s : store) :
  (∀ m l, m ∈ batch → I l →
     filter (metadata_key_is (meta_ID m) (meta_Namespace m)) l = [] →
     I (l ++ [NewVulnerabilityMetadataModel m])) →
  (∀ m l row existing, m ∈ batch → I l →
     filter (metadata_key_is (meta_ID m) (meta_Namespace m)) l = [row] →
     VulnerabilityMetadataModel_Inflate row = Ok existing →
     meta_Severity existing = meta_Severity m →
     meta_Description existing = meta_Description m →
     I (replace_rows (meta_ID existing) (meta_Namespace existing)
          (NewVulnerabilityMetadataModel (merged_record existing m)) l)) →
  I (metadata s) →
  I (metadata (AddVulnerabilityMetadata batch s).2) ∧
  ids (AddVulnerabilityMetadata batch s).2 = ids s ∧
  vulnerabilities (AddVulnerabilityMetadata batch s).2 = vulnerabilities s ∧
  exclusions (AddVulnerabilityMetadata batch s).2 = exclusions s.
Proof.
  revert s. induction batch as [|m rest IH]; intros s Hnew Hmerge HI; [done|].
  assert (IH' : ∀ s1, I (metadata s1) →
            I (metadata (AddVulnerabilityMetadata rest s1).2) ∧
            ids (AddVulnerabilityMetadata rest s1).2 = ids s1 ∧
            vulnerabilities (AddVulnerabilityMetadata rest s1).2
            = vulnerabilities s1 ∧
            exclusions (AddVulnerabilityMetadata rest s1).2 = exclusions s1).
  { intros s1. apply IH.
    - intros m' l Hin. apply Hnew. by apply list_elem_of_further.
    - intros m' l row ex Hin. apply Hmerge. by apply list_elem_of_further. }
  destruct (AddVulnerabilityMetadata_step m rest s)
    as (s1 & Hi & Hv & Hx &
        [[(e & ->) Hm]|[(-> & Hst & Hm)|(ex & -> & Hst & Hs & Hd & Hm)]]).
  - simpl. by rewrite Hm.
  - destruct (IH' s1) as (? & -> & -> & ->); [|done].
    rewrite Hm. apply Hnew; [apply list_elem_of_here|done|].
    by apply stored_metadata_None.
  - destruct (IH' s1) as (? & -> & -> & ->); [|done].
    apply stored_metadata_Some in Hst as (row & Hrows & Hrow).
    rewrite Hm. by apply (Hmerge m _ row ex); [apply list_elem_of_here|..].
Qed.

Lemma filter_key_none (id namespace : string)
    (l : list VulnerabilityMetadataModel) :
  filter (metadata_primary_key_is id namespace) l = [] ↔
  (id, namespace) ∉ row_key <$> l.
Proof.
  induction l as [|r l IH]; [split; [intros _; apply not_elem_of_nil|done]|].
  rewrite fmap_cons, not_elem_of_cons, <- IH.
  destruct (decide (metadata_primary_key_is id namespace r)) as [Hr|Hr].
  - rewrite filter_cons_True by done. apply row_key_is in Hr.
    split; [done|]. intros [Hne _]. by destruct Hne.
  - rewrite filter_cons_False by done. rewrite row_key_is in Hr.
    split; [|tauto]. intros Hl. split; [|done]. intros Heq. by apply Hr.
Qed.

Lemma filter_key_NoDup (id namespace : string)
    (l : list VulnerabilityMetadataModel) :
  NoDup (row_key <$> l) →
  filter (metadata_primary_key_is id namespace) l = [] ∨
  ∃ row, filter (metadata_primary_key_is id namespace) l = [row].
Proof.
  induction l as [|r l IH]; [by left|].
  rewrite fmap_cons. intros [Hr Hl]%NoDup_cons.
  destruct (decide (metadata_primary_key_is id namespace r)) as [Hk|Hk].
  - rewrite filter_cons_True by done. right. exists r. f_equal.
    apply filter_key_none. apply row_key_is in Hk. by rewrite <- Hk.
  - rewrite filter_cons_False by done. by apply IH.
Qed.

(** A lookup that finds nothing: no row has the key looked up. *)
Lemma filter_lookup_none (id namespace : string)
    (l : list VulnerabilityMetadataModel) :
  filter (metadata_key_is id namespace) l = [] →
  (id, namespace) ∉ row_key <$> l.
Proof.
  intros Hl (r & Hr & Hin)%list_elem_of_fmap.
  assert (Hsel : r ∈ filter (metadata_key_is id namespace) l).
  { apply list_elem_of_filter. split; [|done].
    apply metadata_primary_key_selected. apply row_key_is. done. }
  rewrite Hl in Hsel. by apply elem_of_nil in Hsel.
Qed.

(** With both an ID and a namespace the lookup selects the rows of the
    primary key. *)
Lemma filter_lookup_primary (id namespace : string)
    (l : list VulnerabilityMetadataModel) :
  id ≠ "" → namespace ≠ "" →
  filter (metadata_key_is id namespace) l
  = filter (metadata_primary_key_is id namespace) l.
Proof.
  intros Hid Hns. apply list_filter_iff. intros r.
  by apply metadata_key_is_primary.
Qed.

Lemma keys_replace_rows (id namespace : string)
    (new : VulnerabilityMetadataModel) (l : list VulnerabilityMetadataModel) :
  row_key new = (id, namespace) →
  row_key <$> replace_rows id namespace new l = row_key <$> l.
Proof.
  intros Hnew. unfold replace_rows. rewrite <- list_fmap_compose.
  apply list_fmap_ext. intros _ r _. simpl.
  destruct (decide (metadata_primary_key_is id namespace r)) as [Hr|Hr]; [|done].
  apply row_key_is in Hr. congruence.
Qed.

(** Overwriting a primary key none of the rows has changes nothing. *)
Lemma replace_rows_other (id namespace : string)
    (new : VulnerabilityMetadataModel) (l : list VulnerabilityMetadataModel) :
  (∀ r, r ∈ l → row_key r ≠ (id, namespace)) →
  replace_rows id namespace new l = l.
Proof.
  intros Hl. unfold replace_rows. rewrite <- (list_fmap_id l) at 2.
  apply list_fmap_ext. intros i r Hr. simpl.
  rewrite decide_False; [done|].
  rewrite row_key_is. apply Hl. by apply (list_elem_of_lookup_2 _ i).
Qed.

(** X5. One record per key: a batch of metadata, however far it gets and
    whatever the backend refuses, leaves a table in which no two rows share
    a key and every row inflates, when it found the table so; and it never
    touches the other tables. *)
Theorem AddVulnerabilityMetadata_keeps_table_ok
    (batch : list VulnerabilityMetadata) (s : store) :
  metadata_table_ok s →
  metadata_table_ok (AddVulnerabilityMetadata batch s).2 ∧
  ids (AddVulnerabilityMetadata batch s).2 = ids s ∧
  vulnerabilities (AddVulnerabilityMetadata batch s).2 = vulnerabilities s ∧
  exclusions (AddVulnerabilityMetadata batch s).2 = exclusions s.
Proof.
  intros Hok. unfold metadata_table_ok, metadata_keys in *.
  apply (AddVulnerabilityMetadata_preserves
           (λ l, NoDup (row_key <$> l) ∧
                 Forall (λ r, ∃ m, VulnerabilityMetadataModel_Inflate r = Ok m) l));
    [| |done].
  - intros m l _ [Hnd Hall] Hfree. split.
    + rewrite fmap_app. apply NoDup_app. split; [done|]. split.
      * intros k Hk Hk'%list_elem_of_singleton. subst k.
        rewrite row_key_New in Hk. by apply filter_lookup_none in Hfree.
      * apply NoDup_singleton.
    + apply Forall_app. split; [done|]. apply Forall_singleton.
      exists m. apply VulnerabilityMetadataModel_Inflate_New.
  - intros m l row ex _ [Hnd Hall] Hrow Hex Hs Hd. split.
    + rewrite keys_replace_rows; [done|]. apply row_key_merged.
    + unfold replace_rows. apply Forall_fmap.
      eapply Forall_impl; [exact Hall|]. intros r Hr. simpl.
      case_decide; [|done]. eexists.
      apply VulnerabilityMetadataModel_Inflate_New.
Qed.

(** X6. On a table in which no two rows share a key and every row
    inflates, [GetVulnerabilityMetadata], asked with both an ID and a
    namespace, fails only when the backend refuses the read: it never
    reports several records for one key. *)
Theorem GetVulnerabilityMetadata_fails_only_on_read
    (id namespace : string) (s : store) :
  metadata_table_ok s →
  id ≠ "" → namespace ≠ "" →
  match (GetVulnerabilityMetadata id namespace s).1 with
  | Ok _ => call_goes_through s
  | Err e => ∃ msg, head (faults s) = Some (Some msg) ∧ e = ErrBackend msg
  end.
Proof.
  intros [Hnd Hall] Hid Hns.
  destruct (GetVulnerabilityMetadata_cases id namespace s)
    as [(Hf & ->)|(e & He & ->)]; simpl.
  - assert (Hgo : call_goes_through s).
    { apply call_goes_through_1, calls_go_through_S. split; [done|].
      reflexivity. }
    rewrite stored_metadata_rows, filter_lookup_primary by done.
    destruct (filter_key_NoDup id namespace (metadata s) Hnd)
      as [->|(row & Hrow)]; [done|]. rewrite Hrow.
    assert (Hin : row ∈ metadata s).
    { assert (Hin : row ∈ filter (metadata_primary_key_is id namespace)
                                 (metadata s))
        by (rewrite Hrow; apply list_elem_of_here).
      by apply list_elem_of_filter in Hin as [_ ?]. }
    rewrite Forall_forall in Hall. destruct (Hall row Hin) as (m & ->). done.
  - destruct (faults s) as [|[msg|] fs]; simpl in He; try done.
    injection He as <-. eauto.
Qed.

(** X7. A stored record only grows: whatever a batch does and however far
    it gets, a record that a lookup with both an ID and a namespace found
    is still found by it afterwards, with the same severity and
    description, its scoring entries still at the front of the list in the
    same order, and all its links. *)
Theorem AddVulnerabilityMetadata_extends_stored
    (batch : list VulnerabilityMetadata) (id namespace : string)
    (r : VulnerabilityMetadata) (s : store) :
  id ≠ "" → namespace ≠ "" →
  stored_metadata id namespace s = Ok (Some r) →
  ∃ r',
    stored_metadata id namespace (AddVulnerabilityMetadata batch s).2
    = Ok (Some r') ∧
    extends r r'.
Proof.
  intros Hid Hns Hst.
  apply stored_metadata_Some in Hst as (row & Hrows & Hrow).
  destruct (AddVulnerabilityMetadata_preserves
              (λ l, ∃ row' r',
                 filter (metadata_key_is id namespace) l = [row'] ∧
                 VulnerabilityMetadataModel_Inflate row' = Ok r' ∧
                 extends r r') batch s)
    as [(row' & r' & Hrows' & Hrow' & Hext) _].
  - intros m l _ (row' & r' & Hrows' & Hrow' & Hext) Hfree.
    exists row', r'. split; [|done].
    rewrite filter_app, Hrows', filter_cons_False; [done|].
    intros Hsel. apply metadata_key_is_primary in Hsel; [|done..].
    apply row_key_is in Hsel. rewrite row_key_New in Hsel.
    injection Hsel as Hi Hn. rewrite Hi, Hn, Hrows' in Hfree. done.
  - intros m l row0 ex _ (row' & r' & Hrows' & Hrow' & Hext) Hrow0 Hex Hs Hd.
    rewrite filter_lookup_replace_rows by apply row_key_is, row_key_merged.
    rewrite Hrows'. unfold replace_rows. simpl.
    destruct (decide (metadata_primary_key_is (meta_ID ex) (meta_Namespace ex)
                        row')) as [Hk|Hk].
    + assert (Heq : row' = row0).
      { destruct (filter_lookup_head _ _ _ _ Hrows') as [_ Hin'].
        destruct (filter_lookup_head _ _ _ _ Hrow0) as [Hsel0 _].
        apply row_key_is in Hk.
        pose proof (row_key_Inflate _ _ Hex) as Hkey0.
        unfold meta_key in Hkey0. rewrite Hkey0 in Hk.
        injection Hk as Hi Hn.
        assert (Hin0 : row' ∈ filter (metadata_key_is (meta_ID m)
                                                      (meta_Namespace m)) l).
        { apply list_elem_of_filter. split; [|done].
          by apply (metadata_key_is_columns _ _ row' row0). }
        rewrite Hrow0 in Hin0. by apply list_elem_of_singleton in Hin0. }
      subst row0. rewrite Hrow' in Hex. injection Hex as <-.
      exists (NewVulnerabilityMetadataModel (merged_record r' m)),
             (merged_record r' m).
      split; [done|].
      split; [apply VulnerabilityMetadataModel_Inflate_New|].
      destruct Hext as (Hi & Hn & Hse & Hde & Hc & Hu).
      unfold extends, merged_record. simpl. repeat split; try done.
      * etrans; [exact Hc|]. rewrite merge_Cvss_spec. by apply prefix_app_r.
      * intros u Hin. apply elem_of_merge_URLs. left. by apply Hu.
    + exists row', r'. done.
  - exists row, r. split; [done|]. split; [done|].
    unfold extends. repeat split; done.
  - exists r'. split; [|done]. apply stored_metadata_Some. eauto.
Qed.

(** X8. Other keys are left alone: a batch in which no record's lookup
    selects a given key, of an ID and a namespace, leaves what is stored
    under that key as it was, however far the batch gets. *)
Theorem AddVulnerabilityMetadata_other_keys
    (batch : list VulnerabilityMetadata) (id namespace : string) (s : store) :
  id ≠ "" → namespace ≠ "" →
  (∀ m, m ∈ batch → ¬ selects m (id, namespace)) →
  stored_metadata id namespace (AddVulnerabilityMetadata batch s).2
  = stored_metadata id namespace s.
Proof.
  intros Hid Hns Hother.
  destruct (AddVulnerabilityMetadata_preserves
              (λ l, filter (metadata_key_is id namespace) l
                    = filter (metadata_key_is id namespace) (metadata s))
              batch s) as [Hsame _].
  - intros m l Hin <- _.
    rewrite filter_app, filter_cons_False, filter_nil, app_nil_r; [done|].
    intros Hsel. apply metadata_key_is_primary in Hsel; [|done..].
    apply row_key_is in Hsel. rewrite row_key_New in Hsel.
    apply (Hother m Hin). rewrite <- Hsel.
    unfold selects, meta_key. simpl. split; by right.
  - intros m l row ex Hin <- Hrow Hex _ _.
    rewrite filter_lookup_replace_rows by apply row_key_is, row_key_merged.
    apply replace_rows_other. intros r [Hsel _]%list_elem_of_filter Hkey.
    apply metadata_key_is_primary in Hsel; [|done..].
    apply row_key_is in Hsel.
    apply (Hother m Hin).
    destruct (filter_lookup_head _ _ _ _ Hrow) as [Hsel0 _].
    apply metadata_key_is_selects in Hsel0.
    rewrite <- (row_key_Inflate _ _ Hex) in Hsel0.
    unfold meta_key in Hsel0. by rewrite <- Hkey, Hsel in Hsel0.
  - done.
  - by rewrite !stored_metadata_rows, Hsame.
Qed.

(** X9. A batch is the sequence of its parts: adding two lists of records
    in one call does what adding the first and then, if that succeeded,
    the second does; when the first fails the second is not started. *)
Theorem AddVulnerabilityMetadata_app
    (first second : list VulnerabilityMetadata) (s : store) :
  AddVulnerabilityMetadata (first ++ second) s
  = match AddVulnerabilityMetadata first s with
    | (None, s1) => AddVulnerabilityMetadata second s1
    | (Some e, s1) => (Some e, s1)
    end.
Proof.
  revert s. induction first as [|m first IH]; intros s.
  { simpl. by destruct (AddVulnerabilityMetadata second s) as [[e|] s1]. }
  rewrite <- app_comm_cons. cbn [AddVulnerabilityMetadata].
  destruct (GetVulnerabilityMetadata (meta_ID m) (meta_Namespace m) s)
    as [[[existing|]|e] s0]; [| |done].
  - repeat case_decide; try done.
    destruct (db_write _ s0) as [res s2].
    repeat case_decide; try done.
    destruct (Error res); [done|apply IH].
  - destruct (db_write _ s0) as [res s2].
    destruct (Error res); [done|].
    case_decide; [done|apply IH].
Qed.

Lemma calls_go_through_drop (a b : nat) (s s1 : store) :
  calls_go_through (a + b) s →
  faults s1 = drop a (faults s) →
  calls_go_through b s1.
Proof.
  rewrite !calls_before_fault_all. intros Hab ->.
  revert Hab. generalize (faults s). clear s s1.
  induction a as [|a IH]; intros script; [done|].
  destruct script as [|[msg|] script]; simpl.
  - intros _. apply calls_before_fault_nil.
  - done.
  - intros [= Hab]. by apply IH.
Qed.

Lemma calls_go_through_le (a b : nat) (s : store) :
  calls_go_through b s → (a ≤ b)%nat → calls_go_through a s.
Proof.
  rewrite !calls_before_fault_all. generalize (faults s). clear s.
  revert b. induction a as [|a IH]; intros b script Hb Hle; [done|].
  destruct b as [|b]; [lia|].
  destruct script as [|[msg|] script]; simpl in *; [done|done|].
  f_equal. apply (IH b); [congruence|lia].
Qed.

(** X10. The order of arrival does not matter for the links: two records
    with the same key, of an ID and a namespace, and the same severity and
    description, added in either order to a store that has nothing under
    the key, leave the same URLs and the same set of scoring entries. *)
Theorem AddVulnerabilityMetadata_order_of_arrival
    (m1 m2 : VulnerabilityMetadata) (s : store) :
  meta_ID m1 ≠ "" → meta_Namespace m1 ≠ "" →
  stored_metadata (meta_ID m1) (meta_Namespace m1) s = Ok None →
  meta_key m2 = meta_key m1 →
  meta_Severity m2 = meta_Severity m1 →
  meta_Description m2 = meta_Description m1 →
  calls_go_through 4 s →
  ∃ s12 s21 r12 r21,
    AddVulnerabilityMetadata [m1; m2] s = (None, s12) ∧
    AddVulnerabilityMetadata [m2; m1] s = (None, s21) ∧
    stored_metadata (meta_ID m1) (meta_Namespace m1) s12 = Ok (Some r12) ∧
    stored_metadata (meta_ID m1) (meta_Namespace m1) s21 = Ok (Some r21) ∧
    meta_URLs r12 = meta_URLs r21 ∧
    (∀ c, c ∈ meta_Cvss r12 ↔ c ∈ meta_Cvss r21).
Proof.
  intros _ _ Hfree [= Hid Hns] Hsev Hdesc Hf.
  assert (Hf2 : calls_go_through 2 s) by (apply (calls_go_through_le 2 4); [done|lia]).
  destruct (AddVulnerabilityMetadata_new m1 [m2] s Hfree Hf2)
    as (sa & Ha & Hsta & Hfa).
  assert (Hfree2 : stored_metadata (meta_ID m2) (meta_Namespace m2) s = Ok None)
    by (by rewrite Hid, Hns).
  destruct (AddVulnerabilityMetadata_new m2 [m1] s Hfree2 Hf2)
    as (sb & Hb & Hstb & Hfb).
  assert (Hfa2 : calls_go_through 2 sa) by (by apply (calls_go_through_drop 2 2 s)).
  assert (Hfb2 : calls_go_through 2 sb) by (by apply (calls_go_through_drop 2 2 s)).
  rewrite <- Hid, <- Hns in Hsta.
  destruct (AddVulnerabilityMetadata_merge m2 [] sa m1 Hsta
              (eq_sym Hsev) (eq_sym Hdesc) Hfa2) as (s12 & Ha' & Hst12 & _).
  rewrite Hid, Hns in Hstb.
  destruct (AddVulnerabilityMetadata_merge m1 [] sb m2 Hstb Hsev Hdesc Hfb2)
    as (s21 & Hb' & Hst21 & _).
  rewrite Hid, Hns in Hst12.
  exists s12, s21, (merged_record m1 m2), (merged_record m2 m1).
  split; [by rewrite Ha, Ha'|]. split; [by rewrite Hb, Hb'|].
  split; [done|]. split; [done|]. unfold merged_record. simpl. split.
  - apply (Sorted_unique String.le); [apply Sorted_merge_URLs..|].
    apply NoDup_Permutation; [apply NoDup_merge_URLs..|].
    intros u. rewrite !elem_of_merge_URLs. tauto.
  - intros c. rewrite !elem_of_merge_Cvss. tauto.
Qed.

Lemma AddVulnerabilityMetadata_keeps_keys
    (batch : list VulnerabilityMetadata) (k : string * string) (s : store) :
  k ∈ metadata_keys s →
  k ∈ metadata_keys (AddVulnerabilityMetadata batch s).2.
Proof.
  intros Hk. unfold metadata_keys in *.
  apply (AddVulnerabilityMetadata_preserves (λ l, k ∈ row_key <$> l));
    [| |done].
  - intros m l _ Hin _. rewrite fmap_app, elem_of_app. by left.
  - intros m l row ex _ Hin Hrow Hex _ _.
    rewrite keys_replace_rows; [done|]. apply row_key_merged.
Qed.

(** X11. Namespaces become visible through metadata: after a batch that
    returned without error, the namespace of every record of the batch that
    names one is among the names [GetVulnerabilityNamespaces] returns. *)
Theorem GetVulnerabilityNamespaces_after_AddVulnerabilityMetadata
    (batch : list VulnerabilityMetadata) (s s' : store)
    (m : VulnerabilityMetadata) :
  AddVulnerabilityMetadata batch s = (None, s') →
  m ∈ batch →
  meta_Namespace m ≠ "" →
  meta_Namespace m ∈ (GetVulnerabilityNamespaces (undisturbed s')).1.1.
Proof.
  intros Hadd Hin Hns.
  assert (Hkey : ∃ k, k ∈ metadata_keys s' ∧ k.2 = meta_Namespace m).
  { revert s Hadd. induction batch as [|m' rest IH]; intros s Hadd;
      [by apply elem_of_nil in Hin|].
    destruct (AddVulnerabilityMetadata_step m' rest s)
      as (s1 & _ & _ & _ &
          [[(e & He) _]|[(Hgo & _ & Hm)|(ex & Hgo & Hst & _ & _ & Hm)]]);
      [congruence|..].
    - rewrite Hgo in Hadd.
      apply elem_of_cons in Hin as [Heq|Hin]; [|by apply (IH Hin s1)].
      subst m'. exists (meta_key m). split; [|done].
      replace s' with (AddVulnerabilityMetadata rest s1).2 by (by rewrite Hadd).
      apply AddVulnerabilityMetadata_keeps_keys.
      unfold metadata_keys. rewrite Hm, fmap_app, elem_of_app. right.
      rewrite <- row_key_New. apply list_elem_of_here.
    - rewrite Hgo in Hadd.
      apply elem_of_cons in Hin as [Heq|Hin]; [|by apply (IH Hin s1)].
      subst m'. exists (meta_key ex). split.
      + replace s' with (AddVulnerabilityMetadata rest s1).2
          by (by rewrite Hadd).
        apply AddVulnerabilityMetadata_keeps_keys.
        apply stored_metadata_Some in Hst as (row & Hrows & Hex).
        unfold metadata_keys.
        rewrite Hm, keys_replace_rows by apply row_key_merged.
        rewrite (row_key_Inflate _ _ Hex). apply list_elem_of_fmap_2.
        by destruct (filter_lookup_head _ _ _ _ Hrows).
      + by destruct (stored_metadata_key _ _ _ _ Hst) as [_ [?|?]]. }
  destruct Hkey as (k & Hk & Hk2).
  unfold GetVulnerabilityNamespaces, undisturbed, db_Find, next_fault. simpl.
  apply elem_of_remove_dups.
  unfold metadata_keys in Hk.
  apply list_elem_of_fmap in Hk as (row & Hrow & Hin').
  apply list_elem_of_fmap. exists row. split; [|done].
  by rewrite <- Hk2, Hrow.
Qed.

(** X12. A new entry is stored as it is: when the lookup made for a
    record finds nothing, and the lookup, the insert and a later read all
    go through, [AddVulnerabilityMetadata] succeeds and
    [GetVulnerabilityMetadata] then returns the record unchanged. *)
Theorem GetVulnerabilityMetadata_after_new_entry
    (m : VulnerabilityMetadata) (s : store) :
  stored_metadata (meta_ID m) (meta_Namespace m) s = Ok None →
  calls_go_through 3 s →
  ∃ s',
    AddVulnerabilityMetadata [m] s = (None, s') ∧
    (GetVulnerabilityMetadata (meta_ID m) (meta_Namespace m) s').1
    = Ok (Some m).
Proof.
  intros Hfree Hf.
  assert (Hf2 : calls_go_through 2 s) by (apply (calls_go_through_le 2 3); [done|lia]).
  destruct (AddVulnerabilityMetadata_new m [] s Hfree Hf2)
    as (s' & Hadd & Hst & Hfl).
  exists s'. split; [exact Hadd|].
  assert (Hf1 : calls_go_through 1 s') by (by apply (calls_go_through_drop 2 1 s)).
  apply calls_go_through_S in Hf1 as [Hhead _].
  destruct (GetVulnerabilityMetadata_cases (meta_ID m) (meta_Namespace m) s')
    as [(_ & ->)|(e & He & _)]; [done|congruence].
Qed.

End BatchFacts.

(** ** Match exclusions *)

Section ExclusionFacts.
Context `{RowModels}.

Lemma inflate_exclusions_first_error
    (before after : list VulnerabilityMatchExclusionModel)
    (bad : VulnerabilityMatchExclusionModel) (e : error)
    (acc : list VulnerabilityMatchExclusion) :
  Forall (λ m, inflate_fails m = false) before →
  VulnerabilityMatchExclusionModel_Inflate bad = Err e →
  inflate_exclusions (before ++ bad :: after) acc = Err e.
Proof.
  intros Hok Hbad. revert acc.
  induction Hok as [|m before Hm _ IH]; intros acc; simpl.
  - by rewrite Hbad.
  - unfold inflate_fails in Hm.
    destruct (VulnerabilityMatchExclusionModel_Inflate m) as [[x|]|e'];
      [apply IH|apply IH|done].
Qed.

(** X13. One row that does not inflate spoils the lookup: when the read
    goes through and a row stored under the id fails to inflate,
    [GetVulnerabilityMatchExclusion] returns the error of the first such
    row and no exclusion at all, not even those of the rows before it. *)
Theorem GetVulnerabilityMatchExclusion_first_error
    (id : string) (s : store)
    (before after : list VulnerabilityMatchExclusionModel)
    (bad : VulnerabilityMatchExclusionModel) (e : error) :
  call_goes_through s →
  filter (λ m, VulnerabilityMatchExclusionModel_ID m = id) (exclusions s)
  = before ++ bad :: after →
  Forall (λ m, inflate_fails m = false) before →
  VulnerabilityMatchExclusionModel_Inflate bad = Err e →
  (GetVulnerabilityMatchExclusion id s).1 = ([], Some e).
Proof.
  intros Hf Hrows Hok Hbad. unfold GetVulnerabilityMatchExclusion.
  destruct (db_Find_cases
              (filter (λ m, VulnerabilityMatchExclusionModel_ID m = id)
                      (exclusions s)) s)
    as [(s' & -> & _)|(e' & s' & _ & E)].
  - by rewrite Hrows, (inflate_exclusions_first_error _ _ _ e).
  - unfold call_goes_through in Hf. by rewrite E in Hf.
Qed.

(** The rows a batch of exclusions leaves in the table. *)
Lemma AddVulnerabilityMatchExclusion_spec
    (excls : list VulnerabilityMatchExclusion) (s : store) :
  let '(err, s') := AddVulnerabilityMatchExclusion excls s in
  let n := calls_before_fault (length excls) (faults s) in
  exclusions s'
  = exclusions s ++ (NewVulnerabilityMatchExclusionModel <$> take n excls) ∧
  (err = None ↔ n = length excls) ∧
  ids s' = ids s ∧ vulnerabilities s' = vulnerabilities s ∧
  metadata s' = metadata s.
Proof.
  revert s. induction excls as [|x excls IH]; intros s.
  - simpl. rewrite app_nil_r. repeat split; done.
  - cbn [AddVulnerabilityMatchExclusion length]. unfold db_write, next_fault.
    destruct (faults s) as [|[msg|] fs] eqn:Efs.
    + cbn [RowsAffected Error]. rewrite decide_False by (intros Hn; by apply Hn).
      match goal with |- context [AddVulnerabilityMatchExclusion excls ?s1] =>
        specialize (IH s1);
        destruct (AddVulnerabilityMatchExclusion excls s1) as [err s']
      end.
      cbn [faults set_exclusions] in IH. rewrite Efs in IH.
      rewrite calls_before_fault_nil in IH. cbn [calls_before_fault].
      destruct IH as (Hx & Herr & Hi & Hv & Hm).
      rewrite firstn_all in Hx.
      split; [|split; [|done]].
      * rewrite Hx. simpl. rewrite <- app_assoc. simpl.
        by rewrite firstn_all.
      * split; [done|]. intros _. by apply Herr.
    + cbn [fault_error fmap option_fmap option_map RowsAffected Error].
      cbn [calls_before_fault]. simpl. rewrite app_nil_r.
      split; [done|]. split; done.
    + cbn [fault_error fmap option_fmap option_map RowsAffected Error].
      rewrite decide_False by (intros Hn; by apply Hn).
      match goal with |- context [AddVulnerabilityMatchExclusion excls ?s1] =>
        specialize (IH s1);
        destruct (AddVulnerabilityMatchExclusion excls s1) as [err s']
      end.
      cbn [faults set_exclusions set_faults exclusions] in IH.
      cbn [calls_before_fault].
      destruct IH as (Hx & Herr & Hi & Hv & Hm).
      split; [|split; [|done]].
      * rewrite Hx. simpl. by rewrite <- app_assoc.
      * rewrite Herr. split; [by intros ->|by intros [= ->]].
Qed.

(** X14. Exclusions of other vulnerabilities are left alone: a batch of
    exclusions, however far it gets, does not change what
    [GetVulnerabilityMatchExclusion] returns for an id that no exclusion of
    the batch carries, and it never touches the other tables. *)
Theorem AddVulnerabilityMatchExclusion_other_ids
    (excls : list VulnerabilityMatchExclusion) (id : string) (s : store) :
  (∀ x, x ∈ excls → excl_ID x ≠ id) →
  let s' := (AddVulnerabilityMatchExclusion excls s).2 in
  (GetVulnerabilityMatchExclusion id (undisturbed s')).1
  = (GetVulnerabilityMatchExclusion id (undisturbed s)).1 ∧
  ids s' = ids s ∧ vulnerabilities s' = vulnerabilities s ∧
  metadata s' = metadata s.
Proof.
  intros Hother.
  pose proof (AddVulnerabilityMatchExclusion_spec excls s) as Hs.
  destruct (AddVulnerabilityMatchExclusion excls s) as [err s'].
  cbv zeta in Hs. destruct Hs as (Hx & _ & Hi & Hv & Hm). simpl.
  split; [|done].
  unfold GetVulnerabilityMatchExclusion, undisturbed, db_Find, next_fault.
  simpl. rewrite Hx, filter_app.
  rewrite (filter_none _ (NewVulnerabilityMatchExclusionModel <$> _)).
  - rewrite app_nil_r. by destruct (inflate_exclusions _ _).
  - intros m (x & -> & Hin%subseteq_take)%list_elem_of_fmap.
    rewrite VulnerabilityMatchExclusionModel_ID_New. by apply Hother.
Qed.

End ExclusionFacts.

(** ** The diff as a whole *)

Section DiffRunFacts.
Context `{Models} {T : Type} `{StoreReader T} {PkgMap : Type}.
Variable buildVulnerabilityPkgsMap : list Vulnerability → PkgMap.
Variable diffVulnerabilities :
  list Vulnerability → list Vulnerability → PkgMap → PkgMap → Manual →
  gmap string Diff * Manual.
Variable diffVulnerabilityMetadata :
  list VulnerabilityMetadata → list VulnerabilityMetadata → PkgMap → PkgMap →
  Manual → gmap string Diff * Manual.

Lemma db_Find_tables {A : Type} (rows : list A) (s : store) :
  ids (db_Find rows s).2 = ids s ∧
  vulnerabilities (db_Find rows s).2 = vulnerabilities s ∧
  metadata (db_Find rows s).2 = metadata s ∧
  exclusions (db_Find rows s).2 = exclusions s ∧
  executed (db_Find rows s).2 = executed s ∧
  released (db_Find rows s).2 = released s.
Proof.
  unfold db_Find. destruct (next_fault s) as [[e|] s'] eqn:E;
    apply next_fault_tables in E; simpl; exact E.
Qed.

Lemma GetAllVulnerabilities_tables (s : store) :
  ids (GetAllVulnerabilities s).2 = ids s ∧
  vulnerabilities (GetAllVulnerabilities s).2 = vulnerabilities s ∧
  metadata (GetAllVulnerabilities s).2 = metadata s ∧
  exclusions (GetAllVulnerabilities s).2 = exclusions s ∧
  executed (GetAllVulnerabilities s).2 = executed s ∧
  released (GetAllVulnerabilities s).2 = released s.
Proof.
  unfold GetAllVulnerabilities.
  pose proof (db_Find_tables (vulnerabilities s) s) as Hf.
  destruct (db_Find (vulnerabilities s) s) as [[models [e|]] s1]; exact Hf.
Qed.

Lemma GetAllVulnerabilityMetadata_tables (s : store) :
  ids (GetAllVulnerabilityMetadata s).2 = ids s ∧
  vulnerabilities (GetAllVulnerabilityMetadata s).2 = vulnerabilities s ∧
  metadata (GetAllVulnerabilityMetadata s).2 = metadata s ∧
  exclusions (GetAllVulnerabilityMetadata s).2 = exclusions s ∧
  executed (GetAllVulnerabilityMetadata s).2 = executed s ∧
  released (GetAllVulnerabilityMetadata s).2 = released s.
Proof.
  unfold GetAllVulnerabilityMetadata.
  pose proof (db_Find_tables (metadata s) s) as Hf.
  destruct (db_Find (metadata s) s) as [[models [e|]] s1]; exact Hf.
Qed.

(** X15. The diff only reads: whatever the outcome of [DiffStore], the
    four tables of the base store are as they were, no statement has been
    executed on it and its connection is in the state it was in. *)
Theorem DiffStore_leaves_base_store (s : store) (targetStore : T) :
  let run :=
    DiffStore buildVulnerabilityPkgsMap diffVulnerabilities
              diffVulnerabilityMetadata s targetStore in
  ids (run_base run) = ids s ∧
  vulnerabilities (run_base run) = vulnerabilities s ∧
  metadata (run_base run) = metadata s ∧
  exclusions (run_base run) = exclusions s ∧
  executed (run_base run) = executed s ∧
  released (run_base run) = released s.
Proof.
  unfold DiffStore. simpl.
  destruct (reader_GetAllVulnerabilities targetStore) as [[targetVulns|e] t1];
    [|done].
  pose proof (GetAllVulnerabilities_tables s) as Hv.
  destruct (GetAllVulnerabilities s) as [[baseVulns|e] s1]; [|exact Hv].
  destruct (diffVulnerabilities _ _ _ _ _) as [allDiffsMap items1].
  pose proof (GetAllVulnerabilityMetadata_tables s1) as Hm.
  simpl in Hv.
  assert (Hs2 :
    ids (GetAllVulnerabilityMetadata s1).2 = ids s ∧
    vulnerabilities (GetAllVulnerabilityMetadata s1).2 = vulnerabilities s ∧
    metadata (GetAllVulnerabilityMetadata s1).2 = metadata s ∧
    exclusions (GetAllVulnerabilityMetadata s1).2 = exclusions s ∧
    executed (GetAllVulnerabilityMetadata s1).2 = executed s ∧
    released (GetAllVulnerabilityMetadata s1).2 = released s).
  { destruct Hv as (<- & <- & <- & <- & <- & <-). exact Hm. }
  destruct (GetAllVulnerabilityMetadata s1) as [[baseMetadata|e] s2];
    [|exact Hs2].
  destruct (reader_GetAllVulnerabilityMetadata t1) as [[targetMetadata|e] t2];
    [|exact Hs2].
  destruct (diffVulnerabilityMetadata _ _ _ _ _) as [metaDiffsMap items2].
  exact Hs2.
Qed.

(** X16. The row counter counts the reads that succeeded, except that a
    failed read of vulnerabilities is counted too: it is created with size
    7 and stands at 4 exactly when a changeset is returned; when the first,
    second, third or fourth read is the one that fails, the error of that
    read is returned, the counter stands at 1, 2, 2 or 3, and the stage
    label is the one of that read; when the four reads go through, the
    counter stands at 4 and the label is the one of the last stage. *)
Theorem DiffStore_row_counter (s : store) (targetStore : T) :
  let run :=
    DiffStore buildVulnerabilityPkgsMap diffVulnerabilities
              diffVulnerabilityMetadata s targetStore in
  size (run_rowsProgress run) = 7 ∧
  (run_err run = None ↔ count (run_rowsProgress run) = 4) ∧
  (∀ e t1,
     reader_GetAllVulnerabilities targetStore = (Err e, t1) →
     run_err run = Some e ∧
     count (run_rowsProgress run) = 1 ∧
     run_stage run = "reading target vulnerabilities") ∧
  (∀ targetVulns t1 e s1,
     reader_GetAllVulnerabilities targetStore = (Ok targetVulns, t1) →
     GetAllVulnerabilities s = (Err e, s1) →
     run_err run = Some e ∧
     count (run_rowsProgress run) = 2 ∧
     run_stage run = "reading base vulnerabilities") ∧
  (∀ targetVulns t1 baseVulns s1 e s2,
     reader_GetAllVulnerabilities targetStore = (Ok targetVulns, t1) →
     GetAllVulnerabilities s = (Ok baseVulns, s1) →
     GetAllVulnerabilityMetadata s1 = (Err e, s2) →
     run_err run = Some e ∧
     count (run_rowsProgress run) = 2 ∧
     run_stage run = "reading base metadata") ∧
  (∀ targetVulns t1 baseVulns s1 baseMetadata s2 e t2,
     reader_GetAllVulnerabilities targetStore = (Ok targetVulns, t1) →
     GetAllVulnerabilities s = (Ok baseVulns, s1) →
     GetAllVulnerabilityMetadata s1 = (Ok baseMetadata, s2) →
     reader_GetAllVulnerabilityMetadata t1 = (Err e, t2) →
     run_err run = Some e ∧
     count (run_rowsProgress run) = 3 ∧
     run_stage run = "reading target metadata") ∧
  (∀ targetVulns t1 baseVulns s1 baseMetadata s2 targetMetadata t2,
     reader_GetAllVulnerabilities targetStore = (Ok targetVulns, t1) →
     GetAllVulnerabilities s = (Ok baseVulns, s1) →
     GetAllVulnerabilityMetadata s1 = (Ok baseMetadata, s2) →
     reader_GetAllVulnerabilityMetadata t1 = (Ok targetMetadata, t2) →
     run_err run = None ∧
     count (run_rowsProgress run) = 4 ∧
     run_stage run = "comparing metadata").
Proof.
  unfold DiffStore. simpl.
  destruct (reader_GetAllVulnerabilities targetStore)
    as [[targetVulns|e] t1] eqn:Htv;
    [|simpl; repeat split; try done; intros; simplify_eq;
      repeat split; congruence].
  destruct (GetAllVulnerabilities s) as [[baseVulns|e] s1] eqn:Hbv;
    [|simpl; repeat split; try done; intros; simplify_eq;
      repeat split; congruence].
  destruct (diffVulnerabilities _ _ _ _ _) as [allDiffsMap items1].
  destruct (GetAllVulnerabilityMetadata s1) as [[baseMetadata|e] s2] eqn:Hbm;
    [|simpl; repeat split; try done; intros; simplify_eq;
      repeat split; congruence].
  destruct (reader_GetAllVulnerabilityMetadata t1)
    as [[targetMetadata|e] t2] eqn:Htm;
    [|simpl; repeat split; try done; intros; simplify_eq;
      repeat split; congruence].
  destruct (diffVulnerabilityMetadata _ _ _ _ _) as [metaDiffsMap items2].
  simpl. repeat split; try done; intros; simplify_eq;
    repeat split; congruence.
Qed.

Lemma merge_stage_maps_union (allDiffsMap metaDiffsMap : gmap string Diff) :
  merge_stage_maps allDiffsMap metaDiffsMap = metaDiffsMap ∪ allDiffsMap.
Proof.
  apply map_eq. intros k. rewrite merge_stage_maps_lookup, lookup_union.
  by destruct (metaDiffsMap !! k), (allDiffsMap !! k).
Qed.

(** X17. What the changeset holds: when the four reads succeed, the
    changeset has one entry per key reported by either stage; an entry is
    in it exactly when it is an entry of the metadata stage, or an entry of
    the vulnerability stage under a key the metadata stage does not
    report. *)
Theorem DiffStore_changeset
    (s s1 s2 : store) (targetStore t1 t2 : T)
    (targetVulns baseVulns : list Vulnerability)
    (baseMetadata targetMetadata : list VulnerabilityMetadata)
    (allDiffsMap metaDiffsMap : gmap string Diff) (items1 items2 : Manual) :
  reader_GetAllVulnerabilities targetStore = (Ok targetVulns, t1) →
  GetAllVulnerabilities s = (Ok baseVulns, s1) →
  GetAllVulnerabilityMetadata s1 = (Ok baseMetadata, s2) →
  reader_GetAllVulnerabilityMetadata t1 = (Ok targetMetadata, t2) →
  diffVulnerabilities baseVulns targetVulns
    (buildVulnerabilityPkgsMap baseVulns)
    (buildVulnerabilityPkgsMap targetVulns) (trackDiff 7).1.2
  = (allDiffsMap, items1) →
  diffVulnerabilityMetadata baseMetadata targetMetadata
    (buildVulnerabilityPkgsMap baseVulns)
    (buildVulnerabilityPkgsMap targetVulns) items1
  = (metaDiffsMap, items2) →
  ∃ allDiffs,
    run_diffs (DiffStore buildVulnerabilityPkgsMap diffVulnerabilities
                         diffVulnerabilityMetadata s targetStore)
    = Some allDiffs ∧
    length allDiffs
    = base.size (dom allDiffsMap ∪ dom metaDiffsMap : gset string) ∧
    ∀ d, d ∈ allDiffs ↔
         (∃ k, metaDiffsMap !! k = Some d) ∨
         (∃ k, allDiffsMap !! k = Some d ∧ metaDiffsMap !! k = None).
Proof.
  intros Htv Hbv Hbm Htm Hdv Hdm.
  exists (flatten_diffs (merge_stage_maps allDiffsMap metaDiffsMap)).
  split; [|split].
  - unfold DiffStore. simpl in Hdv. simpl.
    rewrite Htv, Hbv, Hdv, Hbm, Htm, Hdm. done.
  - rewrite flatten_diffs_values, length_reverse, length_fmap.
    rewrite merge_stage_maps_union, length_map_to_list.
    rewrite <- (size_dom (D := gset string)), dom_union_L.
    by rewrite (comm_L (∪)).
  - intros d. rewrite elem_of_flatten_diffs. split.
    + intros (k & Hk). rewrite merge_stage_maps_lookup in Hk.
      destruct (metaDiffsMap !! k) as [d'|] eqn:E.
      * injection Hk as ->. eauto.
      * eauto.
    + intros [(k & Hk)|(k & Hk & Hnone)]; exists k;
        rewrite merge_stage_maps_lookup.
      * by rewrite Hk.
      * by rewrite Hnone.
Qed.

End DiffRunFacts.

(** ** Namespaces and the vulnerability table *)

Section NamespaceFacts.
Context `{RowModels}.

(** X18. Vulnerabilities alone do not make a namespace visible: a batch of
    [AddVulnerability], however far it gets, leaves the answer of
    [GetVulnerabilityNamespaces] as it was, and leaves what is stored under
    every metadata key as it was. *)
Theorem AddVulnerability_leaves_namespaces
    (vulns : list Vulnerability) (s : store) :
  let s' := (AddVulnerability vulns s).2 in
  (GetVulnerabilityNamespaces (undisturbed s')).1
  = (GetVulnerabilityNamespaces (undisturbed s)).1 ∧
  ∀ id namespace,
    stored_metadata id namespace s' = stored_metadata id namespace s.
Proof.
  pose proof (AddVulnerability_spec vulns s) as Hs.
  destruct (AddVulnerability vulns s) as [err s']. cbv zeta in Hs.
  destruct Hs as (_ & _ & _ & _ & Hm & _). simpl. split.
  - unfold GetVulnerabilityNamespaces, undisturbed, db_Find, next_fault.
    simpl. by rewrite Hm.
  - intros id namespace. by rewrite !stored_metadata_rows, Hm.
Qed.

End NamespaceFacts.

(** ** The further properties on concrete tables *)

(** A batch of three records for two keys, the insert of the last one
    refused. *)
Lemma AddVulnerabilityMetadata_keeps_table_ok_witness :
  let r1 := Sample.record "High" ["http://x"] [Sample.A] in
  let r2 := Sample.record "High" ["http://y"] [Sample.B] in
  let r3 := {| meta_ID := "CVE-2020-2"; meta_Namespace := "nvd";
               meta_Severity := "Low"; meta_URLs := [];
               meta_Description := ""; meta_Cvss := [] |} in
  let s := Plain.open_store [] [] [] []
             [None; None; None; None; None; Some "disk full"] in
  metadata_table_ok (AddVulnerabilityMetadata [r1; r2; r3] s).2 ∧
  metadata_keys (AddVulnerabilityMetadata [r1; r2; r3] s).2
  = [("CVE-2020-1", "nvd")].
Proof.
  intros r1 r2 r3 s.
  destruct (@AddVulnerabilityMetadata_keeps_table_ok Plain.models
              [r1; r2; r3] s) as [Hok _].
  - split; [apply NoDup_nil_2|apply Forall_nil_2].
  - split; [exact Hok|reflexivity].
Defined.

(** A table with one record, its read refused by the backend. *)
Lemma GetVulnerabilityMetadata_fails_only_on_read_witness :
  let r := Sample.record "High" ["http://x"] [Sample.A] in
  let s := Plain.open_store [] [] [r] [] [Some "database is locked"] in
  (GetVulnerabilityMetadata "CVE-2020-1" "nvd" s).1
  = Err (ErrBackend "database is locked") ∧
  match (GetVulnerabilityMetadata "CVE-2020-1" "nvd" s).1 with
  | Ok _ => call_goes_through s
  | Err e => ∃ msg, head (faults s) = Some (Some msg) ∧ e = ErrBackend msg
  end.
Proof.
  intros r s. split; [reflexivity|].
  apply (@GetVulnerabilityMetadata_fails_only_on_read Plain.models
           "CVE-2020-1" "nvd" s); [|discriminate|discriminate].
  split; [apply NoDup_singleton|].
  apply Forall_singleton. by exists r.
Defined.

(** A stored record, then a batch with one record for its key and one for
    another key. *)
Lemma AddVulnerabilityMetadata_extends_stored_witness :
  let r := Sample.record "High" ["http://x"] [Sample.A] in
  let m := Sample.record "High" ["http://a"] [Sample.B; Sample.A] in
  let other := {| meta_ID := "CVE-2020-2"; meta_Namespace := "nvd";
                  meta_Severity := "Low"; meta_URLs := [];
                  meta_Description := ""; meta_Cvss := [] |} in
  stored_metadata "CVE-2020-1" "nvd"
    (AddVulnerabilityMetadata [other; m] (Sample.holding [r])).2
  = Ok (Some (Sample.record "High" ["http://a"; "http://x"]
                            [Sample.A; Sample.B])).
Proof.
  intros r m other.
  assert (Hid : "CVE-2020-1" ≠ "") by discriminate.
  assert (Hns : "nvd" ≠ "") by discriminate.
  destruct (@AddVulnerabilityMetadata_extends_stored Plain.models
              [other; m] "CVE-2020-1" "nvd" r (Sample.holding [r])
              Hid Hns eq_refl)
    as (r' & Hst & _).
  rewrite Hst. vm_compute in Hst. injection Hst as <-. reflexivity.
Defined.

(** A batch for CVE-2020-1 leaves the record of CVE-2020-2 alone. *)
Lemma AddVulnerabilityMetadata_other_keys_witness :
  let r := Sample.record "High" ["http://x"] [Sample.A] in
  let other := {| meta_ID := "CVE-2020-2"; meta_Namespace := "nvd";
                  meta_Severity := "Low"; meta_URLs := ["http://z"];
                  meta_Description := ""; meta_Cvss := [] |} in
  stored_metadata "CVE-2020-2" "nvd"
    (AddVulnerabilityMetadata [r; r] (Sample.holding [other])).2
  = Ok (Some other).
Proof.
  intros r other.
  rewrite (@AddVulnerabilityMetadata_other_keys Plain.models
             [r; r] "CVE-2020-2" "nvd" (Sample.holding [other])).
  - reflexivity.
  - discriminate.
  - discriminate.
  - intros m Hin [[Hsel|Hsel] _]; revert Hsel.
    + apply elem_of_cons in Hin as [->|Hin];
        [discriminate|apply elem_of_cons in Hin as [->|Hin]];
        [discriminate|by apply elem_of_nil in Hin].
    + apply elem_of_cons in Hin as [->|Hin];
        [discriminate|apply elem_of_cons in Hin as [->|Hin]];
        [discriminate|by apply elem_of_nil in Hin].
Defined.

(** Two records for one key, arriving in either order. *)
Lemma AddVulnerabilityMetadata_order_of_arrival_witness :
  let m1 := Sample.record "High" ["http://y"] [Sample.A] in
  let m2 := Sample.record "High" ["http://x"] [Sample.B] in
  ∃ r12 r21,
    stored_metadata "CVE-2020-1" "nvd"
      (AddVulnerabilityMetadata [m1; m2] (Sample.holding [])).2
    = Ok (Some r12) ∧
    stored_metadata "CVE-2020-1" "nvd"
      (AddVulnerabilityMetadata [m2; m1] (Sample.holding [])).2
    = Ok (Some r21) ∧
    meta_URLs r12 = ["http://x"; "http://y"] ∧
    meta_URLs r21 = ["http://x"; "http://y"] ∧
    meta_Cvss r12 = [Sample.A; Sample.B] ∧
    meta_Cvss r21 = [Sample.B; Sample.A].
Proof.
  intros m1 m2.
  assert (Hid : meta_ID m1 ≠ "") by discriminate.
  assert (Hns : meta_Namespace m1 ≠ "") by discriminate.
  destruct (@AddVulnerabilityMetadata_order_of_arrival Plain.models
              m1 m2 (Sample.holding []) Hid Hns
              eq_refl eq_refl eq_refl eq_refl eq_refl)
    as (s12 & s21 & r12 & r21 & H12 & H21 & Hr12 & Hr21 & _).
  exists r12, r21. rewrite H12, H21. simpl.
  split; [exact Hr12|]. split; [exact Hr21|].
  vm_compute in H12, H21. injection H12 as <-. injection H21 as <-.
  vm_compute in Hr12, Hr21. injection Hr12 as <-. injection Hr21 as <-.
  repeat split; reflexivity.
Defined.

(** Records in two namespaces added to an empty store. *)
Lemma GetVulnerabilityNamespaces_after_AddVulnerabilityMetadata_witness :
  let r1 := Sample.record "High" [] [] in
  let r2 := {| meta_ID := "CVE-2020-2"; meta_Namespace := "debian:10";
               meta_Severity := "Low"; meta_URLs := [];
               meta_Description := ""; meta_Cvss := [] |} in
  ∃ s',
    AddVulnerabilityMetadata [r1; r2] (Sample.holding []) = (None, s') ∧
    "debian:10" ∈ (GetVulnerabilityNamespaces (undisturbed s')).1.1.
Proof.
  intros r1 r2. eexists. split; [reflexivity|].
  apply (@GetVulnerabilityNamespaces_after_AddVulnerabilityMetadata
           Plain.models [r1; r2] (Sample.holding []) _ r2 eq_refl);
    [|discriminate].
  apply list_elem_of_further, list_elem_of_here.
Defined.

(** A record added to an empty store and read back. *)
Lemma GetVulnerabilityMetadata_after_new_entry_witness :
  let m := Sample.record "High" ["http://b"; "http://a"] [Sample.A; Sample.A] in
  ∃ s',
    AddVulnerabilityMetadata [m] (Sample.holding []) = (None, s') ∧
    (GetVulnerabilityMetadata "CVE-2020-1" "nvd" s').1 = Ok (Some m).
Proof.
  intros m.
  exact (@GetVulnerabilityMetadata_after_new_entry Plain.models m
           (Sample.holding []) eq_refl eq_refl).
Defined.

(** A good row, then a row that does not inflate. *)
Lemma GetVulnerabilityMatchExclusion_first_error_witness :
  let rule := {| excl_ID := "CVE-1"; excl_Justification := "not affected" |} in
  let good := {| Plain.row_ID := "CVE-1"; Plain.row_Inflate := Ok (Some rule) |} in
  let bad := {| Plain.row_ID := "CVE-1";
                Plain.row_Inflate := Err (ErrInflate "bad constraint") |} in
  let s := Plain.open_store [] [] [] [good; bad; good] [] in
  (GetVulnerabilityMatchExclusion "CVE-1" s).1
  = ([], Some (ErrInflate "bad constraint")).
Proof.
  intros rule good bad s.
  apply (@GetVulnerabilityMatchExclusion_first_error Plain.models
           "CVE-1" s [good] [good] bad (ErrInflate "bad constraint")).
  - reflexivity.
  - reflexivity.
  - apply Forall_singleton. reflexivity.
  - reflexivity.
Defined.

(** Exclusions for CVE-2 added to a store with one for CVE-1. *)
Lemma AddVulnerabilityMatchExclusion_other_ids_witness :
  let rule1 := {| excl_ID := "CVE-1"; excl_Justification := "not affected" |} in
  let rule2 := {| excl_ID := "CVE-2"; excl_Justification := "disputed" |} in
  let s := Plain.open_store [] [] []
             [ {| Plain.row_ID := "CVE-1"; Plain.row_Inflate := Ok (Some rule1) |} ]
             [] in
  (GetVulnerabilityMatchExclusion "CVE-1"
     (undisturbed (AddVulnerabilityMatchExclusion [rule2; rule2] s).2)).1
  = ([rule1], None).
Proof.
  intros rule1 rule2 s.
  destruct (@AddVulnerabilityMatchExclusion_other_ids Plain.models
              PlainRows.rows [rule2; rule2] "CVE-1" s) as [Hsame _].
  - intros x Hin.
    apply elem_of_cons in Hin as [->|Hin];
      [discriminate|apply elem_of_cons in Hin as [->|Hin]];
      [discriminate|by apply elem_of_nil in Hin].
  - rewrite Hsame. reflexivity.
Defined.

(** A base store that answers its first read and refuses its second, the
    read of its metadata. *)
Lemma DiffStore_row_counter_witness :
  let s := Plain.open_store [] [] [] [] [None; Some "disk I/O error"] in
  let run := SampleDiff.run s (Sample.holding []) in
  run_err run = Some (ErrBackend "disk I/O error") ∧
  count (run_rowsProgress run) = 2 ∧
  run_stage run = "reading base metadata".
Proof.
  intros s run.
  destruct (@DiffStore_row_counter
              Plain.models store store_StoreReader unit
              SampleDiff.buildVulnerabilityPkgsMap
              SampleDiff.diffVulnerabilities
              SampleDiff.diffVulnerabilityMetadata
              s (Sample.holding []))
    as (_ & _ & _ & _ & Hthird & _).
  exact (Hthird [] _ [] _ (ErrBackend "disk I/O error") _
                eq_refl eq_refl eq_refl).
Defined.

(** The sample stages: three keys in all, one of them reported twice. *)
Lemma DiffStore_changeset_witness :
  ∃ allDiffs,
    run_diffs (SampleDiff.run (Sample.holding []) (Sample.holding []))
    = Some allDiffs ∧
    length allDiffs = 2%nat ∧
    SampleDiff.metadata_entry ∈ allDiffs ∧
    SampleDiff.vulnerability_entry ∉ allDiffs.
Proof.
  destruct (@DiffStore_changeset
              Plain.models store store_StoreReader unit
              SampleDiff.buildVulnerabilityPkgsMap
              SampleDiff.diffVulnerabilities
              SampleDiff.diffVulnerabilityMetadata
              (Sample.holding []) (Sample.holding []) (Sample.holding [])
              (Sample.holding []) (Sample.holding []) (Sample.holding [])
              [] [] [] []
              SampleDiff.allDiffsMap SampleDiff.metaDiffsMap
              (Increment (Increment (trackDiff 7).1.2))
              (Increment (Increment (Increment (trackDiff 7).1.2)))
              eq_refl eq_refl eq_refl eq_refl eq_refl eq_refl)
    as (allDiffs & Hrun & Hlen & Hin).
  exists allDiffs. split; [exact Hrun|]. split; [|split].
  - rewrite Hlen. vm_compute. reflexivity.
  - apply Hin. left. exists (SampleDiff.key "CVE-2020-1" "nvd").
    vm_compute. reflexivity.
  - intros [(k & Hk)|(k & Hk & Hnone)]%Hin.
    + unfold SampleDiff.metaDiffsMap in Hk.
      apply lookup_singleton_Some in Hk as [_ Hk]. discriminate Hk.
    + unfold SampleDiff.allDiffsMap, SampleDiff.metaDiffsMap in *.
      apply lookup_insert_Some in Hk as [[_ Hk]|[_ Hk]]; [discriminate Hk|].
      apply lookup_singleton_Some in Hk as [<- _].
      by rewrite lookup_singleton_eq in Hnone.
Defined.
